(** * plop.collector: the sampling engine and its two formatters

    A shallow embedding of [src/plop/collector.py]: the [Collector] state
    machine ([reset], [start], [stop], [wait], [handler]), the two
    formatters ([PlopFormatter], [FlamegraphFormatter]) and the reporting
    tail of [main].

    Conventions.
    - Python [int]s are [Z].
    - [time.time()] readings, [interval] and [duration] are Python floats:
      IEEE 754 binary64 values ([spec_float] at precision 53), with the
      correctly rounded operations of [SpecFloat].
    - A [dict] is a [gmap]; its iteration order, which Python 2 leaves to
      the hash table, is the one [map_to_list] happens to give. *)

From Stdlib Require Import ZArith SpecFloat String Ascii DecimalString.
From stdpp Require Import base gmap list strings fin_maps sorting.

Local Open Scope Z_scope.

(** ** Python floats *)

Definition float : Type := spec_float.

(** [0.0], also what the integer literal [0] is worth in float arithmetic. *)
Definition float_zero : float := S754_zero false.

Definition float_is_zero (x : float) : bool :=
  match x with
  | S754_zero _ => true
  | _ => false
  end.

(** [x + y] and [x - y], rounded to nearest even. *)
Definition float_add (x y : float) : float := SFadd 53 1024 x y.
Definition float_sub (x y : float) : float := SFsub 53 1024 x y.

Inductive exn := ZeroDivisionError | OverflowError | ValueError.

(** [x / y]: Python raises on a zero divisor, of either sign, and rounds
    the quotient otherwise. *)
Definition float_div (x y : float) : exn + float :=
  if float_is_zero y then inl ZeroDivisionError
  else inr (SFdiv 53 1024 x y).

(** Python's [int(x)] on a float: truncation towards zero; an infinity and
    a NaN have no integer. *)
Definition py_int (x : float) : exn + Z :=
  match x with
  | S754_nan => inl ValueError
  | S754_infinity _ => inl OverflowError
  | S754_zero _ => inr 0
  | S754_finite s m e =>
      inr (cond_Zopp s
             (if 0 <=? e then Zpos m * 2 ^ e else Zpos m / 2 ^ (- e)))
  end.

(** Python's [float(n)] on an [int]: the nearest float, or an error when
    [n] is beyond the largest one. *)
Definition py_float (n : Z) : exn + float :=
  match binary_normalize 53 1024 n 0 false with
  | S754_infinity _ => inl OverflowError
  | x => inr x
  end.

(** The float that the decimal literal [n/d] denotes, for [n] and [d]
    below [2^53]: [decimal 1 10] is [0.1]. *)
Definition decimal (n : Z) (d : positive) : float :=
  SFdiv 53 1024 (binary_normalize 53 1024 n 0 false)
                (binary_normalize 53 1024 (Zpos d) 0 false).

(** The floats a quotient of a duration by a positive interval can be:
    a zero, a positive number or [+inf]. *)
Definition float_nonneg (x : float) : bool :=
  match x with
  | S754_zero _ | S754_finite false _ _ | S754_infinity false => true
  | _ => false
  end.

(** A finite float counted in units of [2^-1074], the smallest positive
    float: an integer for every float that [valid_binary] accepts. *)
Definition float_units (x : float) : Z :=
  match x with
  | S754_finite s m e => cond_Zopp s (Zpos m * 2 ^ (e + 1074))
  | _ => 0
  end.

(** A mantissa and its rounding bit, as [SpecFloat] shifts them, do not
    exceed the fraction [A / B]: the mantissa is below it, and so is the
    mantissa plus one half when the rounding bit is set. *)
Definition shr_below (mrs : shr_record) (A B : Z) : Prop :=
  0 <= shr_m mrs ∧
  shr_m mrs * B <= A ∧
  (shr_r mrs = true → (2 * shr_m mrs + 1) * B <= 2 * A).

Global Arguments float_add : simpl never.
Global Arguments float_sub : simpl never.
Global Arguments float_div : simpl never.
Global Arguments py_int : simpl never.
Global Arguments py_float : simpl never.

(** ** Interpreter objects read by the handler *)

(** A code object, restricted to the three attributes the handler reads. *)
Record code := Code {
  co_filename : string;
  co_firstlineno : Z;
  co_name : string;
}.

(** An interpreter frame: its code object, the line being executed and the
    caller's frame ([f_back], [None] at the outermost frame). *)
#[warnings="-register-all"]
Inductive pyframe := PyFrame {
  f_code : code;
  f_lineno : Z;
  f_back : option pyframe;
}.

(** Induction along [f_back]. *)
Fixpoint pyframe_chain_ind (P : pyframe → Prop)
    (Houter : ∀ c l, P (PyFrame c l None))
    (Hcall : ∀ c l back, P back → P (PyFrame c l (Some back)))
    (frame : pyframe) : P frame :=
  match frame with
  | PyFrame c l None => Houter c l
  | PyFrame c l (Some back) =>
      Hcall c l back (pyframe_chain_ind P Houter Hcall back)
  end.

(** The tuple [(co_filename, co_firstlineno, co_name)] appended per frame. *)
Definition Frame : Type := string * Z * string.

(** One captured stack, innermost call first. *)
Definition Stack : Type := list Frame.

(** What one signal delivery hands to [handler]: the signal number, the
    interrupted frame, the identity of the running thread, the items of
    [sys._current_frames()] and the two readings of [time.time()]. *)
Record tick := Tick {
  tick_sig : Z;
  tick_current_frame : option pyframe;
  tick_current_tid : Z;
  tick_current_frames : list (Z * pyframe);
  tick_time_start : float;
  tick_time_end : float;
}.

(** ** Collector *)

Inductive timer_mode := prof | virtual | real.

Record Collector := mkCollector {
  interval : float;
  mode : timer_mode;
  stacks : list Stack;
  samples_remaining : Z;
  stopping : bool;
  stopped : bool;
  samples_taken : Z;
  sample_time : float;
  (** the process interval timer of [mode]: [(seconds, interval)] of the
      last [setitimer] call *)
  itimer : float * float;
}.

(** Modelled from the spec: [platform.setitimer] lives in [plop/platform.py],
    which is not part of the sources at hand.  Following section 4.1,
    arming replaces the prior schedule and a zero delay disarms the timer. *)
Definition setitimer (seconds every : float) (self : Collector) : Collector :=
  mkCollector (interval self) (mode self) (stacks self)
    (samples_remaining self) (stopping self) (stopped self)
    (samples_taken self) (sample_time self) (seconds, every).

(** The timer delivers signals as long as its delay is not zero. *)
Definition armed (self : Collector) : bool :=
  negb (float_is_zero (fst (itimer self))).

Definition set_stacks (v : list Stack) (self : Collector) : Collector :=
  mkCollector (interval self) (mode self) v
    (samples_remaining self) (stopping self) (stopped self)
    (samples_taken self) (sample_time self) (itimer self).

Definition set_samples_remaining (v : Z) (self : Collector) : Collector :=
  mkCollector (interval self) (mode self) (stacks self)
    v (stopping self) (stopped self)
    (samples_taken self) (sample_time self) (itimer self).

Definition set_stopping (v : bool) (self : Collector) : Collector :=
  mkCollector (interval self) (mode self) (stacks self)
    (samples_remaining self) v (stopped self)
    (samples_taken self) (sample_time self) (itimer self).

Definition set_stopped (v : bool) (self : Collector) : Collector :=
  mkCollector (interval self) (mode self) (stacks self)
    (samples_remaining self) (stopping self) v
    (samples_taken self) (sample_time self) (itimer self).

Definition set_samples_taken (v : Z) (self : Collector) : Collector :=
  mkCollector (interval self) (mode self) (stacks self)
    (samples_remaining self) (stopping self) (stopped self)
    v (sample_time self) (itimer self).

Definition set_sample_time (v : float) (self : Collector) : Collector :=
  mkCollector (interval self) (mode self) (stacks self)
    (samples_remaining self) (stopping self) (stopped self)
    (samples_taken self) v (itimer self).

(** [Collector.reset] *)
Definition reset (self : Collector) : Collector :=
  let self := set_stacks [] self in
  let self := set_samples_remaining 0 self in
  let self := set_stopping false self in
  let self := set_stopped false self in
  let self := set_samples_taken 0 self in
  set_sample_time float_zero self.

(** [Collector.__init__]: the attributes are created by [reset]; the timer
    of a new process is not armed. *)
Definition Collector_init (interval : float) (mode : timer_mode) : Collector :=
  reset (mkCollector interval mode [] 0 false false 0 float_zero
           (float_zero, float_zero)).

(** How a method call ends: it returns, leaving the object in a new state,
    or an exception escapes it; the attributes assigned before the
    exception keep their new values. *)
Inductive outcome :=
| Returned (self : Collector)
| Raised (e : exn) (self : Collector).

(** [Collector.start].  The third statement can raise, in the division
    (a zero interval) or in [int] (a quotient that is infinite or not a
    number): the two flags are cleared by then, the budget and the timer
    are not touched. *)
Definition start (duration : float) (self : Collector) : outcome :=
  let self := set_stopping false self in
  let self := set_stopped false self in
  match float_div duration (interval self) with
  | inl e => Raised e self
  | inr quotient =>
      match py_int quotient with
      | inl e => Raised e self
      | inr budget =>
          let self := set_samples_remaining budget self in
          Returned (setitimer (interval self) (interval self) self)
      end
  end.

(** The [while frame is not None] loop of the handler. *)
Fixpoint walk_frames (frame : pyframe) : Stack :=
  let c := f_code frame in
  (co_filename c, co_firstlineno c, co_name c) ::
  match f_back frame with
  | Some back => walk_frames back
  | None => []
  end.

Definition capture (frame : option pyframe) : Stack :=
  match frame with
  | Some f => walk_frames f
  | None => []
  end.

(** The frame the loop walks for one item of [sys._current_frames()]:
    the interrupted frame for the running thread, the registered one for
    any other. *)
Definition thread_frame (env : tick) (item : Z * pyframe) : option pyframe :=
  if Z.eqb (fst item) (tick_current_tid env)
  then tick_current_frame env
  else Some (snd item).

(** The body of [for tid, frame in sys._current_frames().items()]. *)
Definition capture_thread (env : tick) (self : Collector)
    (item : Z * pyframe) : Collector :=
  set_stacks (stacks self ++ [capture (thread_frame env item)]) self.

(** The two statements of the terminal branch of the handler, in order. *)
Definition disarm (self : Collector) : Collector :=
  setitimer float_zero float_zero self.
Definition mark_stopped (self : Collector) : Collector := set_stopped true self.

(** The guard of the terminal branch, read after the decrement. *)
Definition terminal (self : Collector) : bool :=
  (samples_remaining self <=? 0) || stopping self.

(** [self.samples_remaining -= 1] *)
Definition decrement (self : Collector) : Collector :=
  set_samples_remaining (samples_remaining self - 1) self.

(** [self.samples_taken += 1] *)
Definition count_sample (self : Collector) : Collector :=
  set_samples_taken (samples_taken self + 1) self.

(** [total + (end - start)], in floats *)
Definition add_overhead (total : float) (env : tick) : float :=
  float_add total (float_sub (tick_time_end env) (tick_time_start env)).

(** [self.sample_time += (end - start)] *)
Definition charge (env : tick) (self : Collector) : Collector :=
  set_sample_time (add_overhead (sample_time self) env) self.

(** [Collector.handler] *)
Definition handler (env : tick) (self : Collector) : Collector :=
  let self := decrement self in
  if terminal self then
    mark_stopped (disarm self)
  else
    let self := foldl (capture_thread env) self (tick_current_frames env) in
    let self := count_sample self in
    charge env self.

(** The states the collector goes through while the handler runs, one per
    assignment or timer call, in the order of the source; the last one is
    the state the handler leaves. *)
Fixpoint capture_steps (env : tick) (self : Collector)
    (items : list (Z * pyframe)) : list Collector :=
  match items with
  | [] => []
  | item :: items' =>
      let self := capture_thread env self item in
      self :: capture_steps env self items'
  end.

Definition handler_steps (env : tick) (self : Collector) : list Collector :=
  let self1 := decrement self in
  if terminal self1 then
    let self2 := disarm self1 in
    let self3 := mark_stopped self2 in
    [self1; self2; self3]
  else
    let items := tick_current_frames env in
    let self2 := foldl (capture_thread env) self1 items in
    let self3 := count_sample self2 in
    let self4 := charge env self3 in
    self1 :: capture_steps env self1 items ++ [self3; self4].

(** A signal is delivered only by an armed timer. *)
Definition deliver (env : tick) (self : Collector) : Collector :=
  if armed self then handler env self else self.

(** [Collector.wait]: the busy loop polls [stopped]; the only thing that
    can change it is a signal, taken from the pending [ticks].  With the
    timer disarmed, or no tick left to come, the loop never exits: [None]. *)
Fixpoint wait (ticks : list tick) (self : Collector)
    : option (Collector * list tick) :=
  if stopped self then Some (self, ticks)
  else
    match ticks with
    | [] => None
    | env :: ticks' =>
        if armed self then wait ticks' (handler env self) else None
    end.

(** [Collector.stop] *)
Definition stop (ticks : list tick) (self : Collector)
    : option (Collector * list tick) :=
  wait ticks (set_stopping true self).

(** The profiled program runs while the timer ticks: [workload] holds the
    expirations of the timer that fall before the program ends. *)
Definition run_workload (workload : list tick) (self : Collector) : Collector :=
  foldl (λ self env, deliver env self) self workload.

(** One profiling session as [main] drives it: a new collector, [start],
    the profiled program, [stop].  [pending] are the expirations that fall
    after the program has ended.  [None]: [start] raised or [stop] never
    returns. *)
Definition session (interval : float) (mode : timer_mode) (duration : float)
    (workload pending : list tick) : option (Collector * list tick) :=
  match start duration (Collector_init interval mode) with
  | Returned self => stop pending (run_workload workload self)
  | Raised _ _ => None
  end.

(** The states of the controller of section 4.3 that the code can tell
    apart: a session is running when the timer is armed and no stop has
    been requested or observed. *)
Definition Running (self : Collector) : bool :=
  armed self && negb (stopping self) && negb (stopped self).

(** What a client of the collector can do to it, one step at a time; the
    signal may come at any moment. *)
Inductive step : Collector → Collector → Prop :=
| step_reset self :
    step self (reset self)
| step_start_returned duration self self' :
    start duration self = Returned self' → step self self'
| step_start_raised duration e self self' :
    start duration self = Raised e self' → step self self'
| step_stop_request self :
    step self (set_stopping true self)
| step_signal env self :
    step self (handler env self).

Definition reachable (self : Collector) : Prop :=
  ∃ interval mode, rtc step (Collector_init interval mode) self.

(** The chain of code objects under a frame, and what a tick shows of the
    threads once the current line numbers are forgotten. *)
Fixpoint codes_of (frame : pyframe) : list code :=
  f_code frame ::
  match f_back frame with
  | Some back => codes_of back
  | None => []
  end.

Definition tick_codes (env : tick)
    : option (list code) * Z * list (Z * list code) :=
  (codes_of <$> tick_current_frame env,
   tick_current_tid env,
   prod_map id codes_of <$> tick_current_frames env).

Definition frame_of_code (c : code) : Frame :=
  (co_filename c, co_firstlineno c, co_name c).

(** The code objects on the stack the loop walks for one thread. *)
Definition thread_codes (env : tick) (item : Z * pyframe) : list code :=
  from_option codes_of [] (thread_frame env item).

(** The same, read off [tick_codes]. *)
Definition codes_view (v : option (list code) * Z * list (Z * list code))
    : list (list code) :=
  (λ item : Z * list code,
     if Z.eqb item.1 v.1.2 then default [] v.1.1 else item.2) <$> v.2.

(** Signals that reach the handler whatever the timer says. *)
Definition signals (envs : list tick) (self : Collector) : Collector :=
  foldl (λ self env, handler env self) self envs.

(** ** Formatters *)

Definition newline : string := String "010"%char "".

(** [str] of an [int], as ["%d"] and ["{}"] print it. *)
Definition str_int (n : Z) : string := NilZero.string_of_int (Z.to_int n).

(** ["%s"] of a value that is a string or [None]. *)
Definition str_opt (s : option string) : string :=
  match s with
  | Some s => s
  | None => "None"
  end.

(** [PlopFormatter]: the only attribute. *)
Record PlopFormatter := mkPlopFormatter { max_stacks : Z }.

(** [PlopFormatter.__init__(self, max_stacks=50)] *)
Definition PlopFormatter_init (max_stacks : Z) : PlopFormatter :=
  mkPlopFormatter 50.

(** [stack_counts[tuple(frames)] += 1] on a [defaultdict(int)] *)
Definition count_stack (stack_counts : gmap Stack Z) (frames : Stack)
    : gmap Stack Z :=
  <[frames := default 0 (stack_counts !! frames) + 1]> stack_counts.

(** The first loop of [PlopFormatter.format]: the aggregation. *)
Definition stack_counts (stacks : list Stack) : gmap Stack Z :=
  foldl count_stack ∅ stacks.

(** [sum(stack_counts.values())] *)
Definition Zsum (l : list Z) : Z := foldr Z.add 0 l.

Definition total_count (m : gmap Stack Z) : Z := Zsum (map_to_list m).*2.

(** How many samples of the store are structurally equal to [stack]. *)
Definition occurrences (stack : Stack) (store : list Stack) : Z :=
  Z.of_nat (length (filter (stack =.) store)).

(** [sorted(l, key=key)]: ascending in the key, stable. *)
Fixpoint insert_by {A} (key : A → Z) (x : A) (l : list A) : list A :=
  match l with
  | [] => [x]
  | y :: l' =>
      if key x <=? key y then x :: y :: l' else y :: insert_by key x l'
  end.

Definition sorted {A} (key : A → Z) (l : list A) : list A :=
  foldr (insert_by key) [] l.

(** The slice [l[:k]]; a negative [k] counts from the end. *)
Definition slice_to {A} (k : Z) (l : list A) : list A :=
  if 0 <=? k then take (Z.to_nat k) l
  else take (Z.to_nat (Z.of_nat (length l) + k)) l.

(** The argument of [dict] in [PlopFormatter.format]. *)
Definition top_stacks (self : PlopFormatter) (collector : Collector)
    : list (Stack * Z) :=
  slice_to (max_stacks self)
    (sorted (λ kv, - kv.2) (map_to_list (stack_counts (stacks collector)))).

(** The mapping that [PlopFormatter.format] serialises. *)
Definition PlopFormatter_mapping (self : PlopFormatter) (collector : Collector)
    : gmap Stack Z :=
  list_to_map (top_stacks self collector).

(** ["{0[2]} ({0[0]}:{0[1]})".format] *)
Definition format_frame (f : Frame) : string :=
  f.2 +:+ " (" +:+ f.1.1 +:+ ":" +:+ str_int f.1.2 +:+ ")".

(** [FlamegraphFormatter.format_flame] *)
Definition format_flame (stack : Stack) : string :=
  String.concat ";" (format_frame <$> reverse stack).

(** ["%s %d\n" % (previous, previous_count)] *)
Definition flame_line (previous : option string) (previous_count : Z) : string :=
  str_opt previous +:+ " " +:+ str_int previous_count +:+ newline.

(** The body of the loop of [FlamegraphFormatter.format], on the triple
    [(output, previous, previous_count)]. *)
Definition flame_step (st : string * option string * Z) (stack : Stack)
    : string * option string * Z :=
  let '(output, previous, previous_count) := st in
  let current := format_flame stack in
  if decide (Some current = previous) then
    (output, previous, previous_count + 1)
  else
    (output +:+ flame_line previous previous_count, Some current, 1).

(** [FlamegraphFormatter.format] *)
Definition FlamegraphFormatter_format (collector : Collector) : string :=
  let '(output, previous, previous_count) :=
    foldl flame_step ("", None, 1) (stacks collector) in
  output +:+ flame_line previous previous_count.

(** The count that ends a line of the folded output, and their sum over
    the lines: what a reader of the file adds up. *)
Definition run_lines (runs : list (option string * Z)) : string :=
  foldr (λ r out, flame_line r.1 r.2 +:+ out) "" runs.

(** The loop of [FlamegraphFormatter.format] once more, keeping the lines
    apart as pairs of a folded stack and a count instead of appending them
    to one string. *)
Definition runs_step (st : list (option string * Z) * option string * Z)
    (stack : Stack) : list (option string * Z) * option string * Z :=
  let '(runs, previous, previous_count) := st in
  let current := format_flame stack in
  if decide (Some current = previous) then
    (runs, previous, previous_count + 1)
  else
    (runs ++ [(previous, previous_count)], Some current, 1).

(** The runs that [FlamegraphFormatter.format] writes, one per line. *)
Definition flame_runs (collector : Collector) : list (option string * Z) :=
  let '(runs, previous, previous_count) :=
    foldl runs_step ([], None, 1) (stacks collector) in
  runs ++ [(previous, previous_count)].

(** Run-length encoding of consecutive equal items, as the specification
    words the folded output: one pair per maximal run. *)
Fixpoint rle_from {A} `{EqDecision A} (prev : A) (n : Z) (l : list A)
    : list (A * Z) :=
  match l with
  | [] => [(prev, n)]
  | x :: l' =>
      if decide (x = prev) then rle_from prev (n + 1) l'
      else (prev, n) :: rle_from x 1 l'
  end.

Definition rle {A} `{EqDecision A} (l : list A) : list (A * Z) :=
  match l with
  | [] => []
  | x :: l' => rle_from x 1 l'
  end.

(** ** The end of [main] *)

(** What the process does that can be seen from outside. *)
Inductive effect :=
| FileWrite (filename content : string)
| Syslog (msg : string)
| Stdout (msg : string)
| Uncaught (e : exn).

(** [print_msg] with the default log level *)
Definition print_msg (msg : string) (to_syslog : bool) : effect :=
  if to_syslog then Syslog msg else Stdout msg.

Section Report.
(** The formatter chosen from [--format], through its [format] method,
    and ["%s"] of a float. *)
Variable format : Collector → string.
Variable str_float : float → string.

(** [CollectorFormatter.store] *)
Definition store (collector : Collector) (filename : string) : effect :=
  FileWrite filename (format collector).

(** [main] from the line after [collector.stop()] to the line before
    [sys.exit], statement by statement; an exception that escapes ends the
    list.  Dividing a float by an [int] converts the [int] first. *)
Definition report (collector : Collector) (filename : string)
    (to_syslog : bool) : list effect :=
  if negb (samples_taken collector =? 0) then
    let msg := "profile output saved to " +:+ filename in
    store collector filename ::
    print_msg msg to_syslog ::
    match py_float (samples_taken collector) with
    | inl e => [Uncaught e]
    | inr taken =>
        match float_div (sample_time collector) taken with
        | inl e => [Uncaught e]
        | inr overhead =>
            print_msg msg to_syslog ::
            match float_div overhead (interval collector) with
            | inl e => [Uncaught e]
            | inr ratio =>
                let msg :=
                  "overhead was " +:+ str_float overhead +:+
                  " per sample (" +:+ str_float ratio +:+ "%)" in
                [print_msg msg to_syslog]
            end
        end
    end
  else
    let msg := "no samples collected; program was too fast" in
    [print_msg msg to_syslog].

(** [main] from the creation of the collector on.  [--duration] is parsed
    as an [int]; [duration] is the float the division in [start] converts
    it to. *)
Definition main_run (interval : float) (mode : timer_mode) (duration : float)
    (filename : string) (to_syslog : bool)
    (workload pending : list tick) : option (list effect) :=
  match session interval mode duration workload pending with
  | Some (collector, _) => Some (report collector filename to_syslog)
  | None => None
  end.
End Report.

Definition is_file_write (e : effect) : bool :=
  match e with
  | FileWrite _ _ => true
  | _ => false
  end.

(** ** Reading a session back *)

(** The stacks one sampling tick appends, in the order of the items of
    [sys._current_frames()]. *)
Definition tick_stacks (env : tick) : list Stack :=
  capture ∘ thread_frame env <$> tick_current_frames env.

(** The folded stacks behind the lines of the folded output: each run
    written out as many times as its count says. *)
Definition expand_runs (runs : list (option string * Z)) : list (option string) :=
  runs ≫= λ r, replicate (Z.to_nat r.2) r.1.

(** No two neighbours of a list are equal. *)
Fixpoint adjacent_distinct {A} (l : list A) : Prop :=
  match l with
  | x :: (y :: _) as l' => x ≠ y ∧ adjacent_distinct l'
  | _ => True
  end.

(** ** The invariant of the collector *)



(** ** Concrete inputs *)

Definition frame_f : pyframe :=
  PyFrame (Code "a.py" 3 "f") 5
    (Some (PyFrame (Code "a.py" 1 "<module>") 20 None)).

(** The same call chain, interrupted at other lines. *)
Definition frame_f' : pyframe :=
  PyFrame (Code "a.py" 3 "f") 8
    (Some (PyFrame (Code "a.py" 1 "<module>") 21 None)).

(** The floats [0.001], [0.01], [0.1], [0.19], [0.2], [0.3], [1.0] and
    [30.0]. *)
Definition float_0_001 : float := Eval vm_compute in decimal 1 1000.
Definition float_0_01 : float := Eval vm_compute in decimal 1 100.
Definition float_0_1 : float := Eval vm_compute in decimal 1 10.
Definition float_0_19 : float := Eval vm_compute in decimal 19 100.
Definition float_0_3 : float := Eval vm_compute in decimal 3 10.
Definition float_1 : float := Eval vm_compute in decimal 1 1.
Definition float_30 : float := Eval vm_compute in decimal 30 1.

(** The float [1e308]. *)
Definition float_1e308 : float :=
  Eval vm_compute in binary_normalize 53 1024 (10 ^ 308) 0 false.

Definition tick_f : tick :=
  Tick 27 (Some frame_f) 1 [(1, frame_f)] float_zero float_0_001.
Definition tick_f' : tick :=
  Tick 27 (Some frame_f') 1 [(1, frame_f')] float_zero float_0_001.

Definition stack_A : Stack := [("a.py", 3, "f"); ("a.py", 1, "<module>")].
Definition stack_B : Stack := [("b.py", 7, "g"); ("a.py", 1, "<module>")].

(** A collector in the middle of a session of 30 s at 10 ms. *)
Definition running_collector : Collector :=
  mkCollector float_0_01 prof [] 3000 false false 0 float_zero
    (float_0_01, float_0_01).

(** A collector in a session of 0.2 s at 100 ms, after the first of its
    two ticks. *)
Definition sampling_collector : Collector :=
  mkCollector float_0_1 prof [stack_A] 1 false false 1 float_0_001
    (float_0_1, float_0_1).

(** A collector after a session whose budget was one tick. *)
Definition stopped_collector : Collector :=
  mkCollector float_0_1 prof [] 0 false true 0 float_zero
    (float_zero, float_zero).

(** The collector at the end of a session of 1 s at 100 ms whose workload
    saw three ticks. *)
Definition collector_after_3_ticks : Collector :=
  Eval vm_compute in
    default (Collector_init float_zero prof)
      (fst <$> session float_0_1 prof float_1 (repeat tick_f 3) [tick_f]).

Definition store_AAABA : Collector :=
  set_stacks [stack_A; stack_A; stack_A; stack_B; stack_A]
    (Collector_init float_0_01 prof).

Definition store_AB : Collector :=
  set_stacks [stack_A; stack_B] (Collector_init float_0_01 prof).

(** * Properties *)

(** ** The collector, field by field *)

Lemma set_stacks_id self : set_stacks (stacks self) self = self.
Proof. by destruct self. Qed.


Lemma capture_threads env items self :
  foldl (capture_thread env) self items =
  set_stacks (stacks self ++ (capture ∘ thread_frame env <$> items)) self.
Proof.
  revert self. induction items as [|item items IH]; intros self; cbn.
  - by rewrite app_nil_r, set_stacks_id.
  - rewrite IH. unfold capture_thread; cbn. by rewrite <-app_assoc.
Qed.

(** The terminal branch, as one record. *)
Lemma handler_terminal env self :
  terminal (decrement self) = true →
  handler env self =
  mkCollector (interval self) (mode self) (stacks self)
    (samples_remaining self - 1) (stopping self) true
    (samples_taken self) (sample_time self) (float_zero, float_zero).
Proof. intros Ht. unfold handler. by rewrite Ht. Qed.

(** The sampling branch, as one record. *)
Lemma handler_sampling env self :
  terminal (decrement self) = false →
  handler env self =
  mkCollector (interval self) (mode self)
    (stacks self ++ (capture ∘ thread_frame env <$> tick_current_frames env))
    (samples_remaining self - 1) (stopping self) (stopped self)
    (samples_taken self + 1)
    (add_overhead (sample_time self) env)
    (itimer self).
Proof.
  intros Ht. unfold handler. rewrite Ht, capture_threads. reflexivity.
Qed.

Lemma terminal_decrement self :
  terminal (decrement self) =
  (samples_remaining self - 1 <=? 0) || stopping self.
Proof. reflexivity. Qed.

Lemma handler_stopping env self :
  stopping (handler env self) = stopping self.
Proof.
  destruct (terminal (decrement self)) eqn:Ht.
  - by rewrite handler_terminal.
  - by rewrite handler_sampling.
Qed.

Lemma handler_interval env self :
  interval (handler env self) = interval self.
Proof.
  destruct (terminal (decrement self)) eqn:Ht.
  - by rewrite handler_terminal.
  - by rewrite handler_sampling.
Qed.

Lemma handler_stacks_prefix env self :
  stacks self `prefix_of` stacks (handler env self).
Proof.
  destruct (terminal (decrement self)) eqn:Ht.
  - by rewrite handler_terminal.
  - rewrite handler_sampling by done. apply prefix_app_r. done.
Qed.

(** Once a stop was requested the next signal is the last one. *)
Lemma handler_after_stop_request env self :
  stopping self = true →
  handler env self =
  mkCollector (interval self) (mode self) (stacks self)
    (samples_remaining self - 1) true true
    (samples_taken self) (sample_time self) (float_zero, float_zero).
Proof.
  intros Hs. rewrite handler_terminal.
  - by rewrite Hs.
  - rewrite terminal_decrement, Hs. apply orb_true_r.
Qed.

Lemma deliver_disarmed env self : armed self = false → deliver env self = self.
Proof. intros Ha. unfold deliver. by rewrite Ha. Qed.

Lemma run_workload_disarmed workload self :
  armed self = false → run_workload workload self = self.
Proof.
  intros Ha. induction workload as [|env workload IH]; [done|].
  cbn. rewrite deliver_disarmed by done. exact IH.
Qed.

(** ** The two ways [start] ends *)

Lemma float_div_nonzero x y q : float_div x y = inr q → float_is_zero y = false.
Proof. unfold float_div. by destruct (float_is_zero y). Qed.

Lemma float_div_zero x y : float_is_zero y = true → float_div x y = inl ZeroDivisionError.
Proof. unfold float_div. by intros ->. Qed.

Lemma float_div_rounds x y :
  float_is_zero y = false → float_div x y = inr (SFdiv 53 1024 x y).
Proof. unfold float_div. by intros ->. Qed.

Lemma start_returned duration self self' :
  start duration self = Returned self' →
  float_is_zero (interval self) = false ∧
  ∃ quotient budget,
    float_div duration (interval self) = inr quotient ∧
    py_int quotient = inr budget ∧
    self' = mkCollector (interval self) (mode self) (stacks self)
      budget false false (samples_taken self) (sample_time self)
      (interval self, interval self).
Proof.
  unfold start. cbn.
  destruct (float_div duration (interval self)) as [e|quotient] eqn:Hdiv; [done|].
  destruct (py_int quotient) as [e|budget] eqn:Hint; [done|].
  intros [= <-]. split; [by eapply float_div_nonzero|]. by eauto.
Qed.

Lemma start_raised duration e self self' :
  start duration self = Raised e self' →
  self' = mkCollector (interval self) (mode self) (stacks self)
    (samples_remaining self) false false (samples_taken self)
    (sample_time self) (itimer self).
Proof.
  unfold start. cbn.
  destruct (float_div duration (interval self)) as [e'|quotient]; [by intros [= _ <-]|].
  destruct (py_int quotient) as [e'|budget]; [by intros [= _ <-]|done].
Qed.

(** ** What holds in every state a client can bring the collector to *)





Lemma reachable_step self self' : reachable self → step self self' → reachable self'.
Proof.
  intros (interval & mode & Hrtc) Hstep. exists interval, mode.
  by eapply rtc_r.
Qed.

Lemma reachable_init interval mode : reachable (Collector_init interval mode).
Proof. by exists interval, mode. Qed.

Lemma stopped_collector_reachable : reachable stopped_collector.
Proof.
  exists float_0_1, prof.
  apply rtc_l with
    (mkCollector float_0_1 prof [] 1 false false 0 float_zero
       (float_0_1, float_0_1)).
  { apply (step_start_returned float_0_1). by vm_compute. }
  apply rtc_once.
  replace stopped_collector with
    (handler tick_f
       (mkCollector float_0_1 prof [] 1 false false 0 float_zero
          (float_0_1, float_0_1)))
    by (by vm_compute).
  apply step_signal.
Qed.


(** ** The busy wait *)

Lemma wait_stopped ticks self :
  stopped self = true → wait ticks self = Some (self, ticks).
Proof. intros Hs. destruct ticks; cbn; by rewrite Hs. Qed.


Lemma wait_stacks_prefix ticks : ∀ self,
  match wait ticks self with
  | Some (self', _) => stacks self `prefix_of` stacks self'
  | None => True
  end.
Proof.
  induction ticks as [|env ticks IH]; intros self; cbn.
  - by destruct (stopped self).
  - destruct (stopped self); [done|]. destruct (armed self); [|done].
    specialize (IH (handler env self)).
    destruct (wait ticks (handler env self)) as [[self' rest]|]; [|done].
    etrans; [apply handler_stacks_prefix | done].
Qed.

(** With the timer armed, the busy wait of [stop] ends at the next signal,
    which takes no sample. *)
Lemma stop_returns env pending self :
  stopped self = true ∨ armed self = true →
  ∃ self' rest,
    stop (env :: pending) self = Some (self', rest) ∧
    stopped self' = true ∧
    samples_taken self' = samples_taken self ∧
    stacks self' = stacks self.
Proof.
  intros Hlive. unfold stop. cbn.
  destruct (stopped self) eqn:Hs; [by eauto 10|].
  destruct Hlive as [|Ha]; [done|].
  change (armed (set_stopping true self)) with (armed self). rewrite Ha.
  rewrite handler_after_stop_request by done.
  rewrite wait_stopped by done. by eauto 10.
Qed.


(** ** Rounding *)

(** Rounding keeps the sign: shifting a mantissa to the right and rounding
    it to even do not make it negative. *)
Lemma shr_1_nonneg mrs : 0 <= shr_m mrs → 0 <= shr_m (shr_1 mrs).
Proof. destruct mrs as [[|[p|p|]|[p|p|]] r s]; cbn; lia. Qed.

Lemma iter_pos_shr_1_nonneg p : ∀ mrs,
  0 <= shr_m mrs → 0 <= shr_m (SpecFloat.iter_pos shr_1 p mrs).
Proof.
  induction p as [p IH|p IH|]; intros mrs Hm; cbn.
  - apply IH, IH, shr_1_nonneg, Hm.
  - apply IH, IH, Hm.
  - apply shr_1_nonneg, Hm.
Qed.

Lemma shr_fexp_nonneg prec emax m e l :
  0 <= m → 0 <= shr_m (shr_fexp prec emax m e l).1.
Proof.
  intros Hm. unfold shr_fexp, shr.
  assert (Hrec : 0 <= shr_m (shr_record_of_loc m l))
    by (destruct l as [|[]]; exact Hm).
  destruct (fexp prec emax (Zdigits2 m + e) - e); cbn [fst]; try exact Hrec.
  by apply iter_pos_shr_1_nonneg.
Qed.

Lemma round_nearest_even_nonneg m l : 0 <= m → 0 <= round_nearest_even m l.
Proof.
  intros Hm. destruct l as [|[]]; cbn; try lia. destruct (Z.even m); lia.
Qed.

Lemma binary_round_aux_sign prec emax sx mx ex lx :
  0 <= mx →
  match binary_round_aux prec emax sx mx ex lx with
  | S754_zero s | S754_infinity s | S754_finite s _ _ => s = sx
  | S754_nan => False
  end.
Proof.
  intros Hm. unfold binary_round_aux.
  pose proof (shr_fexp_nonneg prec emax mx ex lx Hm) as H1.
  destruct (shr_fexp prec emax mx ex lx) as [mrs' e']. cbn [fst] in H1.
  pose proof (shr_fexp_nonneg prec emax _ e' loc_Exact
    (round_nearest_even_nonneg _ (loc_of_shr_record mrs') H1)) as H2.
  destruct (shr_fexp prec emax _ e' loc_Exact) as [mrs'' e'']. cbn [fst] in H2.
  destruct (shr_m mrs'') as [|m|m]; [done| |lia].
  by destruct (e'' <=? emax - prec).
Qed.

Lemma SFdiv_core_binary_nonneg prec emax m1 e1 m2 e2 :
  0 <= (SFdiv_core_binary prec emax (Zpos m1) e1 (Zpos m2) e2).1.1.
Proof.
  unfold SFdiv_core_binary.
  set (s := _ - _ - Z.min _ _).
  set (m' := match s with
             | 0 => Zpos m1 | Zpos _ => Z.shiftl (Zpos m1) s | Zneg _ => 0
             end).
  assert (Hm' : 0 <= m').
  { subst m'. destruct s; try lia. apply Z.shiftl_nonneg. lia. }
  pose proof (Z_div_mod m' (Zpos m2) eq_refl) as Hdiv.
  destruct (Z.div_eucl m' (Zpos m2)) as [q r]. cbn [fst]. nia.
Qed.

(** A duration that is not negative, over a positive interval, gives a
    quotient that is not negative and not a NaN. *)
Lemma SFdiv_nonneg x my ey :
  float_nonneg x = true →
  float_nonneg (SFdiv 53 1024 x (S754_finite false my ey)) = true.
Proof.
  intros Hx. destruct x as [sx|[]| |[] mx ex]; try done.
  unfold SFdiv.
  pose proof (SFdiv_core_binary_nonneg 53 1024 mx ex my ey) as Hq.
  destruct (SFdiv_core_binary 53 1024 (Zpos mx) ex (Zpos my) ey)
    as [[mz ez] lz].
  cbn [fst] in Hq.
  pose proof (binary_round_aux_sign 53 1024 (xorb false false) mz ez lz Hq) as Hs.
  destruct (binary_round_aux 53 1024 (xorb false false) mz ez lz);
    cbn in *; by subst.
Qed.

(** [int] of a positive float is its integer part. *)
Lemma py_int_finite m e :
  ∃ n, py_int (S754_finite false m e) = inr n ∧
       n * 2 ^ Z.max 0 (- e) <= Zpos m * 2 ^ Z.max 0 e
         < (n + 1) * 2 ^ Z.max 0 (- e).
Proof.
  unfold py_int, cond_Zopp. destruct (Z.leb_spec 0 e) as [He|He].
  - eexists; split; [done|].
    rewrite (Z.max_l 0 (- e)), (Z.max_r 0 e) by lia. cbn. lia.
  - eexists; split; [done|].
    rewrite (Z.max_r 0 (- e)), (Z.max_l 0 e) by lia.
    assert (0 < 2 ^ (- e)) by (apply Z.pow_pos_nonneg; lia).
    pose proof (Z.mul_div_le (Zpos m) (2 ^ (- e))).
    pose proof (Z.mul_succ_div_gt (Zpos m) (2 ^ (- e))).
    rewrite Z.pow_0_r. lia.
Qed.

(** The budget [start] computes from a quotient that is not negative. *)
Lemma py_int_nonneg x :
  float_nonneg x = true →
  (x = S754_infinity false ∧ py_int x = inl OverflowError) ∨
  (∃ n, py_int x = inr n ∧ 0 <= n).
Proof.
  destruct x as [s|[]| |[] m e]; try done; intros _.
  - right. by exists 0.
  - by left.
  - right. unfold py_int, cond_Zopp. eexists; split; [done|].
    destruct (Z.leb_spec 0 e).
    + apply Z.mul_nonneg_nonneg; [lia|]. apply Z.pow_nonneg. lia.
    + apply Z.div_pos; [lia|]. apply Z.pow_pos_nonneg; lia.
Qed.

(** *** A duration below two intervals gives a budget of at most one *)

Lemma digits2_pos_spec p :
  2 ^ (Zpos (digits2_pos p) - 1) <= Zpos p < 2 ^ Zpos (digits2_pos p).
Proof.
  induction p as [p IH|p IH|]; cbn [digits2_pos]; [| |by vm_compute].
  - rewrite Pos2Z.inj_succ.
    replace (Z.succ (Zpos (digits2_pos p)) - 1)
      with (Z.succ (Zpos (digits2_pos p) - 1)) by lia.
    rewrite !Z.pow_succ_r by lia. lia.
  - rewrite Pos2Z.inj_succ.
    replace (Z.succ (Zpos (digits2_pos p)) - 1)
      with (Z.succ (Zpos (digits2_pos p) - 1)) by lia.
    rewrite !Z.pow_succ_r by lia. lia.
Qed.

Lemma Zdigits2_le q n : 0 <= n → 0 <= q < 2 ^ n → Zdigits2 q <= n.
Proof.
  intros Hn [Hq Hlt]. destruct q as [|p|p]; [done| |lia]. cbn.
  pose proof (digits2_pos_spec p) as [Hle _].
  apply Z.nlt_ge. intros Hgt.
  assert (2 ^ n <= 2 ^ (Zpos (digits2_pos p) - 1))
    by (apply Z.pow_le_mono_r; lia).
  lia.
Qed.

Lemma shr_1_below mrs A B :
  0 < B → shr_below mrs A B → shr_below (shr_1 mrs) A (2 * B).
Proof.
  intros HB (Hm & Hle & Hr).
  unfold shr_below in *.
  destruct mrs as [[|[p|p|]|[p|p|]] r s];
    cbn [shr_1 shr_m shr_r] in *; repeat split; intros; try lia; try nia.
Qed.

Lemma iter_pos_shr_1_below p : ∀ mrs A B,
  0 < B → shr_below mrs A B →
  shr_below (SpecFloat.iter_pos shr_1 p mrs) A (2 ^ Zpos p * B).
Proof.
  induction p as [p IH|p IH|]; intros mrs A B HB Hinv; cbn [SpecFloat.iter_pos].
  - replace (2 ^ Zpos p~1 * B) with (2 ^ Zpos p * (2 ^ Zpos p * (2 * B))).
    + assert (0 < 2 ^ Zpos p) by (apply Z.pow_pos_nonneg; lia).
      apply IH; [nia|]. apply IH; [lia|]. by apply shr_1_below.
    + rewrite (Pos2Z.inj_xI p), Z.pow_add_r, Z.pow_twice_r by lia.
      change (2 ^ 1) with 2. ring.
  - replace (2 ^ Zpos p~0 * B) with (2 ^ Zpos p * (2 ^ Zpos p * B)).
    + assert (0 < 2 ^ Zpos p) by (apply Z.pow_pos_nonneg; lia).
      apply IH; [nia|]. by apply IH.
    + rewrite (Pos2Z.inj_xO p), Z.pow_twice_r by lia. ring.
  - change (2 ^ 1) with 2. by apply shr_1_below.
Qed.

Lemma shr_below_shift mrs e n A B :
  0 < B → shr_below mrs A B →
  (shr mrs e n).2 = e + Z.max n 0 ∧
  shr_below (shr mrs e n).1 A (2 ^ Z.max n 0 * B).
Proof.
  intros HB Hinv. destruct n as [|p|p]; cbn [shr fst snd].
  - split; [lia|]. by rewrite Z.mul_1_l.
  - rewrite Z.max_l by lia. split; [done|]. by apply iter_pos_shr_1_below.
  - split; [lia|]. rewrite Z.max_r by lia. by rewrite Z.mul_1_l.
Qed.

Lemma round_nearest_even_below mrs A B :
  0 < B → shr_below mrs A B →
  0 <= round_nearest_even (shr_m mrs) (loc_of_shr_record mrs) ∧
  2 * round_nearest_even (shr_m mrs) (loc_of_shr_record mrs) * B <= 2 * A + B.
Proof.
  intros HB (Hm & Hle & Hr).
  destruct mrs as [m [] []];
    cbn [loc_of_shr_record round_nearest_even shr_m shr_r] in *;
    try destruct (Z.even m); split; try lia; try specialize (Hr eq_refl); nia.
Qed.

Lemma new_location_below q r m' my :
  0 < my → 0 <= q → 0 <= r < my → m' = my * q + r →
  shr_below (shr_record_of_loc q (new_location my r)) m' my.
Proof.
  intros Hmy Hq Hr ->. unfold new_location, new_location_even, new_location_odd.
  destruct (Z.even my) eqn:Heven.
  - destruct (r =? 0) eqn:Hr0; [repeat split; cbn [shr_record_of_loc shr_m shr_r]; (done || nia)|].
    destruct (Z.compare_spec (2 * r) my); repeat split; cbn [shr_record_of_loc shr_m shr_r]; (done || nia).
  - destruct (r =? 0) eqn:Hr0; [repeat split; cbn [shr_record_of_loc shr_m shr_r]; (done || nia)|].
    destruct (Z.compare_spec (2 * r + 1) my); repeat split; cbn [shr_record_of_loc shr_m shr_r]; (done || nia).
Qed.

Lemma valid_binary_bounds s m e :
  valid_binary 53 1024 (S754_finite s m e) = true →
  Zpos m < 2 ^ 53 ∧ -1074 <= e.
Proof.
  unfold valid_binary, bounded, canonical_mantissa, fexp, emin.
  intros [Hcanon%Z.eqb_eq _]%andb_true_iff.
  pose proof (digits2_pos_spec m) as [_ Hlt].
  split; [|lia].
  eapply Z.lt_le_trans; [exact Hlt|]. apply Z.pow_le_mono_r; lia.
Qed.

(** [x < 2 y] leaves the quotient a half-unit below 2. *)
Lemma below_two_margin mx my a b :
  0 < mx < 2 ^ 53 → 0 < my < 2 ^ 53 → 0 <= a → 0 <= b →
  mx * 2 ^ a < 2 * (my * 2 ^ b) →
  mx * 2 ^ a * 2 ^ 53 < (2 ^ 54 - 1) * (my * 2 ^ b).
Proof.
  intros Hmx Hmy Ha Hb Hlt.
  assert (H53 : 2 ^ 54 = 2 * 2 ^ 53) by done.
  destruct (Z.le_gt_cases a b) as [Hab|Hab].
  - replace b with (a + (b - a)) in * by lia.
    rewrite Z.pow_add_r in * by lia.
    assert (0 < 2 ^ a) by (apply Z.pow_pos_nonneg; lia).
    assert (0 < 2 ^ (b - a)) by (apply Z.pow_pos_nonneg; lia).
    set (pa := 2 ^ a) in *. set (pj := 2 ^ (b - a)) in *.
    assert (mx < 2 * (my * pj)) by nia.
    assert (mx * 2 ^ 53 < (2 ^ 54 - 1) * (my * pj)); [|nia].
    destruct (Z.le_gt_cases (2 ^ 53) (my * pj)); nia.
  - replace a with (b + (1 + (a - b - 1))) in * by lia.
    rewrite !Z.pow_add_r in * by lia. change (2 ^ 1) with 2 in *.
    assert (0 < 2 ^ b) by (apply Z.pow_pos_nonneg; lia).
    assert (0 < 2 ^ (a - b - 1)) by (apply Z.pow_pos_nonneg; lia).
    set (pb := 2 ^ b) in *. set (pj := 2 ^ (a - b - 1)) in *.
    assert (mx * pj < my) by nia.
    assert (mx * pj * 2 ^ 54 < (2 ^ 54 - 1) * my); nia.
Qed.

(** The quotient of two positive floats [x < 2 y] is rounded to a float
    below 2: the shifts of [SpecFloat] only drop low bits, and rounding to
    nearest adds at most half a unit, which the margin absorbs. *)
Lemma SFdiv_below_two mx ex my ey :
  Zpos mx < 2 ^ 53 → Zpos my < 2 ^ 53 → -1074 <= ex → -1074 <= ey →
  Zpos mx * 2 ^ (ex + 1074) < 2 * (Zpos my * 2 ^ (ey + 1074)) →
  ∃ N,
    py_int (SFdiv 53 1024 (S754_finite false mx ex) (S754_finite false my ey))
      = inr N ∧
    0 <= N <= 1.
Proof.
  intros Hmx Hmy Hex Hey Hlt.
  pose proof (below_two_margin (Zpos mx) (Zpos my) (ex + 1074) (ey + 1074)
    ltac:(lia) ltac:(lia) ltac:(lia) ltac:(lia) Hlt) as Hmargin.
  unfold SFdiv, SFdiv_core_binary.
  set (e' := Z.min _ (ex - ey)).
  assert (He' : e' <= -52).
  { subst e'. etrans; [apply Z.le_min_l|]. unfold fexp, emin. cbn [Zdigits2].
    pose proof (digits2_pos_spec mx) as [Hd1 _].
    pose proof (digits2_pos_spec my) as [_ Hd2].
    set (d1 := Zpos (digits2_pos mx)) in *.
    set (d2 := Zpos (digits2_pos my)) in *.
    assert (1 <= d1 ∧ 1 <= d2) as [? ?] by (subst d1 d2; lia).
    clearbody d1 d2.
    assert (d1 + ex - (d2 + ey) <= 1); [|lia].
    apply Z.nlt_ge. intros Hgt.
    assert (0 < 2 ^ (ey + 1074)) by (apply Z.pow_pos_nonneg; lia).
    assert (0 < 2 ^ (ex + 1074)) by (apply Z.pow_pos_nonneg; lia).
    assert (2 ^ (d2 + (ey + 1074) + 1) <= 2 ^ (d1 - 1 + (ex + 1074)))
      as Hpow by (apply Z.pow_le_mono_r; lia).
    rewrite (Z.pow_add_r 2 (d1 - 1) (ex + 1074)),
      (Z.pow_add_r 2 (d2 + (ey + 1074)) 1),
      (Z.pow_add_r 2 d2 (ey + 1074)) in Hpow by lia.
    change (2 ^ 1) with 2 in Hpow.
    assert (2 ^ (d1 - 1) * 2 ^ (ex + 1074) <= Zpos mx * 2 ^ (ex + 1074))
      by (apply Z.mul_le_mono_nonneg_r; lia).
    assert (Zpos my * 2 ^ (ey + 1074) < 2 ^ d2 * 2 ^ (ey + 1074))
      by (apply Z.mul_lt_mono_pos_r; lia).
    lia. }
  assert (Hs : 0 <= ex - ey - e') by (subst e'; lia).
  set (s := ex - ey - e') in *.
  set (m' := match s with
             | 0 => Zpos mx | Zpos _ => Z.shiftl (Zpos mx) s | Zneg _ => 0
             end).
  assert (Hm' : m' = Zpos mx * 2 ^ s).
  { subst m'. destruct s as [|p|p]; [lia| |lia].
    by rewrite Z.shiftl_mul_pow2. }
  clearbody m'.
  pose proof (Z_div_mod m' (Zpos my) eq_refl) as Hdiv.
  destruct (Z.div_eucl m' (Zpos my)) as [q r]. destruct Hdiv as [Hqr Hr].
  assert (Hq : 0 <= q) by nia.
  (* the margin, in units of the quotient's exponent *)
  set (n := - e' - 52).
  assert (Hn : 0 <= n) by (subst n; lia).
  assert (HP : 0 < 2 ^ n) by (apply Z.pow_pos_nonneg; lia).
  assert (Hii : 2 * m' < (2 ^ 54 - 1) * 2 ^ n * Zpos my).
  { assert (0 < 2 ^ (ey + 1074)) by (apply Z.pow_pos_nonneg; lia).
    assert (2 * 2 ^ s * 2 ^ (ey + 1074) = 2 ^ (ex + 1074) * 2 ^ 53 * 2 ^ n)
      as Hpow.
    { change 2 with (2 ^ 1) at 1. rewrite <-!Z.pow_add_r by lia.
      f_equal. subst s n. lia. }
    apply (Z.mul_lt_mono_pos_r (2 ^ (ey + 1074))); [done|]. nia. }
  assert (Hqlt : q < 2 ^ (1 - e')).
  { replace (1 - e') with (53 + n) by (subst n; lia).
    rewrite Z.pow_add_r by lia.
    apply (Z.mul_lt_mono_pos_r (2 * Zpos my)); [lia|]. nia. }
  assert (Hdq : Zdigits2 q + e' <= 1).
  { pose proof (Zdigits2_le q (1 - e') ltac:(lia) ltac:(lia)). lia. }
  unfold binary_round_aux, shr_fexp.
  set (loc := new_location (Zpos my) r).
  pose proof (new_location_below q r m' (Zpos my) ltac:(lia) Hq Hr Hqr)
    as Hinv0. fold loc in Hinv0.
  set (k := fexp 53 1024 (Zdigits2 q + e') - e').
  assert (Hk : Z.max k 0 <= n) by (subst k n; unfold fexp, emin; lia).
  destruct (shr_below_shift (shr_record_of_loc q loc) e' k m' (Zpos my)
    ltac:(lia) Hinv0) as [He1 Hinv1].
  destruct (shr (shr_record_of_loc q loc) e' k) as [mrs' e1].
  cbn [fst snd] in He1, Hinv1.
  set (kk := Z.max k 0) in *.
  assert (HK : 0 < 2 ^ kk) by (apply Z.pow_pos_nonneg; lia).
  destruct (round_nearest_even_below mrs' m' (2 ^ kk * Zpos my)
    ltac:(nia) Hinv1) as [Hm1 Hround].
  set (m1 := round_nearest_even (shr_m mrs') (loc_of_shr_record mrs')) in *.
  clearbody m1.
  assert (Hm1lt : m1 < 2 ^ (1 - e1)).
  { replace (1 - e1) with (53 + (n - kk)) by (subst n; lia).
    assert (2 ^ n = 2 ^ kk * 2 ^ (n - kk)) as HPsplit.
    { rewrite <-Z.pow_add_r by lia. f_equal. lia. }
    assert (0 < 2 ^ (n - kk)) by (apply Z.pow_pos_nonneg; lia).
    rewrite Z.pow_add_r by lia.
    set (P1 := 2 ^ (n - kk)) in *. rewrite HPsplit in Hii.
    assert (2 * m1 * (2 ^ kk * Zpos my)
            < ((2 ^ 54 - 1) * P1 + 1) * (2 ^ kk * Zpos my)) as Hcancel by nia.
    apply Z.mul_lt_mono_pos_r in Hcancel; [lia|nia]. }
  assert (He1' : e1 <= -52) by (subst n; lia).
  assert (Hinv2 : shr_below (shr_record_of_loc m1 loc_Exact) m1 1)
    by (repeat split; cbn [shr_record_of_loc shr_m shr_r]; (done || lia)).
  set (k2 := fexp 53 1024 (Zdigits2 m1 + e1) - e1).
  destruct (shr_below_shift (shr_record_of_loc m1 loc_Exact) e1 k2 m1 1
    ltac:(lia) Hinv2) as [He2 (Hm2 & Hle2 & _)].
  destruct (shr (shr_record_of_loc m1 loc_Exact) e1 k2) as [mrs'' e2].
  cbn [fst snd] in He2, Hm2, Hle2.
  set (kk2 := Z.max k2 0) in *.
  assert (0 <= kk2) by (subst kk2; lia).
  assert (HK2 : 0 < 2 ^ kk2) by (apply Z.pow_pos_nonneg; lia).
  destruct (shr_m mrs'') as [|m|m]; [by exists 0 | |lia].
  assert (He2' : e2 <= 0).
  { apply Z.nlt_ge. intros Hgt.
    assert (2 ^ (1 - e1) <= 2 ^ kk2) by (apply Z.pow_le_mono_r; lia).
    nia. }
  replace (e2 <=? 1024 - 53) with true by (symmetry; apply Z.leb_le; lia).
  unfold py_int, cond_Zopp. cbn [xorb]. eexists. split; [reflexivity|].
  destruct (Z.leb_spec 0 e2) as [Hzero|Hneg].
  - replace e2 with 0 by lia. replace kk2 with (- e1) in * by lia.
    replace (1 - e1) with (1 + - e1) in Hm1lt by lia.
    rewrite Z.pow_add_r in Hm1lt by lia. change (2 ^ 1) with 2 in Hm1lt.
    change (2 ^ 0) with 1. nia.
  - assert (0 < 2 ^ (- e2)) by (apply Z.pow_pos_nonneg; lia).
    split; [apply Z.div_pos; lia|].
    assert (Zpos m / 2 ^ (- e2) < 2); [|lia].
    apply Z.div_lt_upper_bound; [done|].
    replace (1 - e1) with (1 + (- e2 + kk2)) in Hm1lt by lia.
    rewrite !Z.pow_add_r in Hm1lt by lia. change (2 ^ 1) with 2 in Hm1lt.
    nia.
Qed.

(** ** A session, tick by tick *)

Lemma run_workload_taken workload : ∀ self,
  stopping self = false → stopped self = false → armed self = true →
  samples_taken (run_workload workload self) =
    samples_taken self +
    Z.min (Z.of_nat (length workload)) (Z.max (samples_remaining self - 1) 0) ∧
  stopping (run_workload workload self) = false ∧
  (stopped (run_workload workload self) = true ∨
   armed (run_workload workload self) = true).
Proof.
  induction workload as [|env workload IH]; intros self Hing Hed Ha.
  - cbn. repeat split; [lia | done | by right].
  - change (run_workload (env :: workload) self)
      with (run_workload workload (deliver env self)).
    unfold deliver. rewrite Ha.
    destruct (terminal (decrement self)) eqn:Ht.
    + rewrite handler_terminal, run_workload_disarmed by done.
      rewrite terminal_decrement, Hing, orb_false_r in Ht.
      apply Z.leb_le in Ht. cbn [samples_taken stopping stopped].
      repeat split; [lia | done | by left].
    + rewrite handler_sampling by done.
      rewrite terminal_decrement, Hing, orb_false_r in Ht.
      apply Z.leb_gt in Ht.
      edestruct (IH (mkCollector (interval self) (mode self)
        (stacks self ++ (capture ∘ thread_frame env <$> tick_current_frames env))
        (samples_remaining self - 1) (stopping self) (stopped self)
        (samples_taken self + 1)
        (add_overhead (sample_time self) env)
        (itimer self))) as (Htaken & Hstopping & Hlive); [done..|].
      cbn [samples_taken samples_remaining] in Htaken.
      repeat split; [|done..]. rewrite Htaken. cbn [length]. lia.
Qed.

(** [start] on a collector with a positive interval. *)
Lemma start_positive_interval duration self mi ei :
  interval self = S754_finite false mi ei →
  float_nonneg duration = true →
  float_nonneg (SFdiv 53 1024 duration (interval self)) = true ∧
  match py_int (SFdiv 53 1024 duration (interval self)) with
  | inl e =>
      start duration self =
        Raised e (mkCollector (interval self) (mode self) (stacks self)
          (samples_remaining self) false false
          (samples_taken self) (sample_time self) (itimer self))
  | inr budget =>
      start duration self =
        Returned (mkCollector (interval self) (mode self) (stacks self)
          budget false false
          (samples_taken self) (sample_time self)
          (interval self, interval self))
  end.
Proof.
  intros Hi Hd. split; [rewrite Hi; by apply SFdiv_nonneg|].
  assert (float_div duration (interval self) =
          inr (SFdiv 53 1024 duration (interval self))) as Hdiv
    by (unfold float_div; by rewrite Hi).
  unfold start. cbn. rewrite Hdiv. by destruct (py_int _).
Qed.

Lemma armed_positive_interval self mi ei :
  (itimer self).1 = S754_finite false mi ei → armed self = true.
Proof. intros Hi. unfold armed. by rewrite Hi. Qed.


Lemma handler_steps_last env self :
  last (handler_steps env self) = Some (handler env self).
Proof.
  unfold handler_steps, handler. destruct (terminal (decrement self)); [done|].
  change [?a; ?b] with ([a] ++ [b]).
  by rewrite app_assoc, app_comm_cons, last_snoc.
Qed.

(** ** The claims about the collector *)



(** C6, as the code has it.  With a positive interval and a duration that
    is not negative, [start] does the same in every state, a running
    session included.  It clears both flags and divides the duration by
    the interval in double precision; the quotient is never a NaN.  When
    the quotient is finite, [start] returns with the budget set to its
    integer part and the timer armed at the interval; when the quotient
    overflows to infinity, [start] raises [OverflowError] and leaves the
    budget and the timer as they were.  The store and the counters are
    left alone either way. *)
Theorem start_sets_budget_and_arms duration self mi ei :
  interval self = S754_finite false mi ei →
  float_nonneg duration = true →
  let started budget :=
    mkCollector (interval self) (mode self) (stacks self)
      budget false false
      (samples_taken self) (sample_time self)
      (interval self, interval self) in
  match SFdiv 53 1024 duration (interval self) with
  | S754_zero _ =>
      start duration self = Returned (started 0) ∧ armed (started 0) = true
  | S754_finite false m e =>
      ∃ budget,
        start duration self = Returned (started budget) ∧
        armed (started budget) = true ∧
        0 <= budget ∧
        budget * 2 ^ Z.max 0 (- e) <= Zpos m * 2 ^ Z.max 0 e
          < (budget + 1) * 2 ^ Z.max 0 (- e)
  | S754_infinity false =>
      start duration self =
        Raised OverflowError
          (mkCollector (interval self) (mode self) (stacks self)
             (samples_remaining self) false false
             (samples_taken self) (sample_time self) (itimer self))
  | _ => False
  end.
Proof.
  intros Hi Hd started.
  destruct (start_positive_interval _ _ _ _ Hi Hd) as [Hq Hstart].
  assert (∀ budget, armed (started budget) = true) as Harmed.
  { intros budget. by apply (armed_positive_interval _ mi ei). }
  destruct (SFdiv 53 1024 duration (interval self)) as [s|[]| |[] m e];
    try done.
  - destruct (py_int_finite m e) as (budget & Hint & Hle & Hlt).
    rewrite Hint in Hstart. exists budget. repeat split; try done.
    destruct (py_int_nonneg (S754_finite false m e) eq_refl)
      as [[? _]|(n & Hn & ?)]; [done|]. congruence.
Qed.

Lemma start_sets_budget_and_arms_witness :
  Running sampling_collector = true ∧
  (∃ budget,
     start float_0_3 sampling_collector =
       Returned (mkCollector float_0_1 prof [stack_A] budget false false 1
                   float_0_001 (float_0_1, float_0_1)) ∧
     armed (mkCollector float_0_1 prof [stack_A] budget false false 1
              float_0_001 (float_0_1, float_0_1)) = true ∧
     0 <= budget ∧
     budget * 2 ^ 51 <= 6755399441055743 * 2 ^ 0 < (budget + 1) * 2 ^ 51) ∧
  start float_0_3 sampling_collector =
    Returned (mkCollector float_0_1 prof [stack_A] 2 false false 1
                float_0_001 (float_0_1, float_0_1)).
Proof.
  split; [reflexivity|]. split; [|reflexivity].
  exact (start_sets_budget_and_arms float_0_3 sampling_collector _ _
           eq_refl eq_refl).
Defined.

(** A duration of [1e308] at an interval of a millisecond: the quotient
    overflows, [start] raises with the flags cleared, and [main] does not
    get to run a session. *)
Lemma start_quotient_overflows :
  start float_1e308
    (mkCollector float_0_001 prof [stack_A] 7 true true 1 float_0_001
       (float_zero, float_zero)) =
    Raised OverflowError
      (mkCollector float_0_001 prof [stack_A] 7 false false 1 float_0_001
         (float_zero, float_zero)) ∧
  session float_0_001 prof float_1e308 [tick_f] [tick_f] = None.
Proof. by vm_compute. Qed.

(** C6, as stated, fails: a second [start] during a running session
    returns like the first one. *)
Lemma start_while_running :
  start float_30 (Collector_init float_0_01 prof) = Returned running_collector ∧
  Running running_collector = true ∧
  start float_30 running_collector = Returned running_collector.
Proof. by vm_compute. Qed.



(** C8.  [reset] empties the store and zeroes the budget, both flags,
    [samples_taken] and [sample_time], keeping interval, mode and timer.
    No other operation shrinks the store: [start] leaves it as it is,
    whether it returns or raises, and the handler and [stop] can only
    extend it. *)
Theorem reset_clears_store self :
  reset self =
    mkCollector (interval self) (mode self) [] 0 false false 0 float_zero
      (itimer self) ∧
  (∀ duration,
     match start duration self with
     | Returned self' | Raised _ self' => stacks self' = stacks self
     end) ∧
  (∀ env, stacks self `prefix_of` stacks (handler env self)) ∧
  (∀ ticks,
     match stop ticks self with
     | Some (self', _) => stacks self `prefix_of` stacks self'
     | None => True
     end).
Proof.
  repeat split.
  - intros duration. unfold start. cbn.
    destruct (float_div duration (interval self)) as [e|quotient]; [done|].
    by destruct (py_int quotient).
  - intros env. apply handler_stacks_prefix.
  - intros ticks. apply (wait_stacks_prefix ticks (set_stopping true self)).
Qed.

(** C2, as the code has it.  Take a new collector with a positive
    interval [I] and a positive duration [D], and let [N] be the budget
    [start] computes: the integer part of the double-precision quotient
    [D / I].  The session ends ([stop] returns once one more expiration of
    the timer is due) with [samples_taken] equal to the number of ticks
    that fell during the workload, capped at [N - 1] (at 0 when [N] is 0):
    at most [N + 1], and equal to the cap when the workload outlasts the
    budget.  When the quotient overflows to infinity there is no budget:
    [start] raises and the session does not take place. *)
Theorem session_samples_taken mode workload env pending mi ei md ed :
  let ended N :=
    ∃ self rest,
      session (S754_finite false mi ei) mode (S754_finite false md ed)
        workload (env :: pending) = Some (self, rest) ∧
      stopped self = true ∧
      samples_taken self =
        Z.min (Z.of_nat (length workload)) (Z.max (N - 1) 0) ∧
      samples_taken self <= N + 1 in
  match SFdiv 53 1024 (S754_finite false md ed) (S754_finite false mi ei) with
  | S754_zero _ => ended 0
  | S754_finite false m e =>
      ∃ N,
        0 <= N ∧
        N * 2 ^ Z.max 0 (- e) <= Zpos m * 2 ^ Z.max 0 e
          < (N + 1) * 2 ^ Z.max 0 (- e) ∧
        ended N
  | S754_infinity false =>
      session (S754_finite false mi ei) mode (S754_finite false md ed)
        workload (env :: pending) = None
  | _ => False
  end.
Proof.
  set (I := S754_finite false mi ei).
  set (D := S754_finite false md ed).
  intros ended.
  destruct (start_positive_interval D (Collector_init I mode)
    mi ei eq_refl eq_refl) as [Hq Hstart].
  change (interval (Collector_init I mode)) with I in *.
  assert (∀ N, py_int (SFdiv 53 1024 D I) = inr N → 0 <= N ∧ ended N)
    as Hended.
  { intros N Hint.
    destruct (py_int_nonneg _ Hq) as [[_ ?]|(N' & ? & HN)]; [congruence|].
    assert (N' = N) as -> by congruence. split; [done|].
    rewrite Hint in Hstart. unfold ended, session. rewrite Hstart.
    match type of Hstart with _ = Returned ?c => set (self1 := c) in * end.
    assert (armed self1 = true) as Harmed
      by (by apply (armed_positive_interval _ mi ei)).
    destruct (run_workload_taken workload self1) as (Htaken & _ & Hlive);
      [done..|].
    destruct (stop_returns env pending _ Hlive)
      as (self & rest & -> & ? & Hsame & _).
    exists self, rest. rewrite Hsame, Htaken. subst self1. cbn.
    repeat split; [done | lia]. }
  destruct (SFdiv 53 1024 D I) as [s|[]| |[] m e]; try done.
  - by apply Hended.
  - unfold session. by rewrite Hstart.
  - destruct (py_int_finite m e) as (N & Hint & Hbounds).
    exists N. destruct (Hended N Hint). done.
Qed.

Lemma session_samples_taken_witness :
  (∃ N,
     0 <= N ∧
     N * 2 ^ 51 <= 6755399441055743 * 2 ^ 0 < (N + 1) * 2 ^ 51 ∧
     ∃ self rest,
       session float_0_1 prof float_0_3 (repeat tick_f 3) [tick_f] =
         Some (self, rest) ∧
       stopped self = true ∧
       samples_taken self =
         Z.min (Z.of_nat (length (repeat tick_f 3))) (Z.max (N - 1) 0) ∧
       samples_taken self <= N + 1) ∧
  (λ r : Collector * list tick, samples_taken r.1) <$>
    session float_0_1 prof float_0_3 (repeat tick_f 3) [tick_f] = Some 1.
Proof.
  split; [|reflexivity].
  exact (session_samples_taken prof (repeat tick_f 3) tick_f []
           7205759403792794 (-56) 5404319552844595 (-54)).
Defined.

(** C2, as stated, fails: with [D = 1.0] and [I = 0.1] the budget is 10,
    and a workload that outlasts the twenty ticks offered ends with 9
    samples, not with [10 + 1 = 11].  With [D = 0.3] and [I = 0.1] the
    quotient is rounded below 3, the budget is 2, and one sample is
    taken. *)
Lemma session_full_duration_takes_9 :
  (λ r : Collector * list tick, samples_taken r.1) <$>
    session float_0_1 prof float_1 (repeat tick_f 20) [tick_f] = Some 9 ∧
  py_int (SFdiv 53 1024 float_1 float_0_1) = inr 10 ∧
  (λ r : Collector * list tick, samples_taken r.1) <$>
    session float_0_1 prof float_0_3 (repeat tick_f 20) [tick_f] = Some 1 ∧
  py_int (SFdiv 53 1024 float_0_3 float_0_1) = inr 2.
Proof. by vm_compute. Qed.

(** ** What the handler records of a frame *)

Lemma walk_frames_codes frame :
  walk_frames frame = frame_of_code <$> codes_of frame.
Proof.
  induction frame as [c l | c l back IH] using pyframe_chain_ind; [done|].
  cbn. by rewrite <-IH.
Qed.

Lemma capture_thread_codes env item :
  capture (thread_frame env item) = frame_of_code <$> thread_codes env item.
Proof.
  unfold thread_codes. destruct (thread_frame env item) as [frame|]; [|done].
  apply walk_frames_codes.
Qed.

Lemma thread_codes_view env :
  thread_codes env <$> tick_current_frames env = codes_view (tick_codes env).
Proof.
  unfold codes_view, tick_codes. cbn. rewrite <-list_fmap_compose.
  apply list_fmap_ext. intros _ [tid frame] _. unfold thread_codes, thread_frame.
  cbn. destruct (tid =? tick_current_tid env); [|done].
  by destruct (tick_current_frame env).
Qed.

Lemma handler_stacks env self :
  stacks (handler env self) =
  stacks self ++
    if terminal (decrement self) then []
    else (fmap frame_of_code ∘ thread_codes env) <$> tick_current_frames env.
Proof.
  destruct (terminal (decrement self)) eqn:Ht.
  - rewrite handler_terminal by done. cbn. by rewrite app_nil_r.
  - rewrite handler_sampling by done. cbn. f_equal.
    apply list_fmap_ext. intros _ item _. apply capture_thread_codes.
Qed.

(** C10.  Every frame the handler stores is the triple of file name, first
    line and name of a code object on the walked chain; the line being
    executed is not read.  Two ticks that show the same code objects on the
    same threads, whatever lines were executing, therefore leave the same
    store. *)
Theorem handler_records_first_line env env' self :
  tick_codes env = tick_codes env' →
  stacks (handler env self) =
    stacks self ++
      (if terminal (decrement self) then []
       else (fmap frame_of_code ∘ thread_codes env) <$> tick_current_frames env) ∧
  stacks (handler env self) = stacks (handler env' self).
Proof.
  intros Hcodes. split; [apply handler_stacks|].
  rewrite !handler_stacks. f_equal.
  destruct (terminal (decrement self)); [done|].
  rewrite !list_fmap_compose, !thread_codes_view. by rewrite Hcodes.
Qed.

Lemma handler_records_first_line_witness :
  f_lineno frame_f ≠ f_lineno frame_f' ∧
  stacks (handler tick_f running_collector) = [stack_A] ∧
  stacks (handler tick_f running_collector) =
    stacks (handler tick_f' running_collector).
Proof.
  split; [done|]. split; [reflexivity|].
  apply (handler_records_first_line tick_f tick_f' running_collector).
  reflexivity.
Defined.

(** ** The end of [main] *)

Lemma wait_after_stop_request ticks : ∀ self self' rest,
  stopping self = true →
  wait ticks self = Some (self', rest) →
  samples_taken self' = samples_taken self.
Proof.
  induction ticks as [|env ticks IH]; intros self self' rest Hs; cbn.
  - destruct (stopped self); [|done]. intros; by simplify_eq.
  - destruct (stopped self); [intros; by simplify_eq|].
    destruct (armed self); [|done]. intros Hw.
    apply IH in Hw; [|by rewrite handler_stopping].
    rewrite Hw. by rewrite handler_after_stop_request.
Qed.

Lemma session_taken_nonneg interval mode duration workload pending self rest :
  session interval mode duration workload pending = Some (self, rest) →
  0 <= samples_taken self.
Proof.
  unfold session.
  destruct (start duration (Collector_init interval mode)) as [self1|]
    eqn:Hstart; [|done].
  apply start_returned in Hstart as (Hi & quotient & budget & _ & _ & ->).
  cbn in Hi. intros Hstop.
  unfold stop in Hstop. apply wait_after_stop_request in Hstop; [|done].
  rewrite Hstop.
  change (samples_taken (set_stopping true ?c)) with (samples_taken c).
  match goal with |- context [run_workload workload ?c] =>
    destruct (run_workload_taken workload c) as (-> & _); [done.. | |]
  end.
  - unfold armed. cbn. by rewrite Hi.
  - cbn. lia.
Qed.

Lemma run_workload_interval workload : ∀ self,
  interval (run_workload workload self) = interval self.
Proof.
  induction workload as [|env workload IH]; intros self; [done|].
  change (run_workload (env :: workload) self)
    with (run_workload workload (deliver env self)).
  rewrite IH. unfold deliver. destruct (armed self); [|done].
  apply handler_interval.
Qed.

Lemma wait_interval ticks : ∀ self self' rest,
  wait ticks self = Some (self', rest) → interval self' = interval self.
Proof.
  induction ticks as [|env ticks IH]; intros self self' rest; cbn.
  - destruct (stopped self); [|done]. intros; by simplify_eq.
  - destruct (stopped self); [intros; by simplify_eq|].
    destruct (armed self); [|done]. intros Hw.
    apply IH in Hw. by rewrite Hw, handler_interval.
Qed.

(** A session that took place ran at an interval that is not zero. *)
Lemma session_interval_nonzero period mode duration workload pending self rest :
  session period mode duration workload pending = Some (self, rest) →
  float_is_zero (interval self) = false.
Proof.
  unfold session.
  destruct (start duration (Collector_init period mode)) as [self1|]
    eqn:Hstart; [|done].
  apply start_returned in Hstart as (Hi & quotient & budget & _ & _ & ->).
  unfold stop. intros Hstop%wait_interval. rewrite Hstop.
  change (interval (set_stopping true ?c)) with (interval c).
  by rewrite run_workload_interval.
Qed.

(** C9.  When a session has ended, [main] goes on to report, on syslog or
    on standard output as [--syslog] says.  With no sample taken the only
    effect is the message [no samples collected; program was too fast]:
    no file is written.  Otherwise the formatted store is written to the
    output file first and the message [profile output saved to <file>]
    follows; the report then computes the overhead per sample,
    [sample_time / samples_taken] in floats, and, unless that raises, goes
    on with the same message once more and the overhead message, which
    gives the overhead and its quotient by the interval. *)
Theorem main_reports_by_samples_taken
    format str_float period mode duration filename to_syslog
    workload pending self rest :
  session period mode duration workload pending = Some (self, rest) →
  main_run format str_float period mode duration filename to_syslog
    workload pending =
    Some (report format str_float self filename to_syslog) ∧
  (samples_taken self = 0 ∧
   report format str_float self filename to_syslog =
     [(if to_syslog then Syslog else Stdout)
        "no samples collected; program was too fast"]
   ∨
   0 < samples_taken self ∧
   ∃ more,
     report format str_float self filename to_syslog =
       FileWrite filename (format self) ::
       (if to_syslog then Syslog else Stdout)
         ("profile output saved to " +:+ filename) ::
       more ∧
     ((∃ e, more = [Uncaught e]) ∨
      (∃ taken overhead ratio,
         py_float (samples_taken self) = inr taken ∧
         float_div (sample_time self) taken = inr overhead ∧
         float_div overhead (interval self) = inr ratio ∧
         more =
           [(if to_syslog then Syslog else Stdout)
              ("profile output saved to " +:+ filename);
            (if to_syslog then Syslog else Stdout)
              ("overhead was " +:+ str_float overhead +:+ " per sample (" +:+
               str_float ratio +:+ "%)")]))).
Proof.
  intros Hsession. split; [unfold main_run; by rewrite Hsession|].
  pose proof (session_taken_nonneg _ _ _ _ _ _ _ Hsession) as Hnonneg.
  unfold report, store. destruct (samples_taken self =? 0) eqn:Hzero; cbn [negb].
  - left. apply Z.eqb_eq in Hzero. split; [done|]. by destruct to_syslog.
  - right. apply Z.eqb_neq in Hzero. split; [lia|].
    eexists. split; [by destruct to_syslog|].
    destruct (py_float (samples_taken self)) as [e|taken]; [by eauto|].
    destruct (float_div (sample_time self) taken) as [e|overhead] eqn:Hover;
      [by eauto|].
    right. exists taken, overhead.
    rewrite (float_div_rounds overhead (interval self))
      by (by eapply session_interval_nonzero).
    eexists. do 3 (split; [done|]). by destruct to_syslog.
Qed.

Lemma main_reports_by_samples_taken_witness :
  let self := collector_after_3_ticks in
  let saved := "profile output saved to " +:+ "profiles/a.py.flame" in
    session float_0_1 prof float_1 (repeat tick_f 3) [tick_f] =
      Some (self, []) ∧
    (main_run FlamegraphFormatter_format (λ _, "?") float_0_1 prof float_1
       "profiles/a.py.flame" false (repeat tick_f 3) [tick_f] =
       Some (report FlamegraphFormatter_format (λ _, "?") self
               "profiles/a.py.flame" false) ∧
     (samples_taken self = 0 ∧
      report FlamegraphFormatter_format (λ _, "?") self
        "profiles/a.py.flame" false =
        [Stdout "no samples collected; program was too fast"]
      ∨
      0 < samples_taken self ∧
      ∃ more,
        report FlamegraphFormatter_format (λ _, "?") self
          "profiles/a.py.flame" false =
          FileWrite "profiles/a.py.flame" (FlamegraphFormatter_format self) ::
          Stdout saved :: more ∧
        ((∃ e, more = [Uncaught e]) ∨
         (∃ taken overhead ratio,
            py_float (samples_taken self) = inr taken ∧
            float_div (sample_time self) taken = inr overhead ∧
            float_div overhead (interval self) = inr ratio ∧
            more =
              [Stdout saved;
               Stdout ("overhead was " +:+ "?" +:+ " per sample (" +:+
                       "?" +:+ "%)")])))) ∧
    main_run FlamegraphFormatter_format (λ _, "?") float_0_1 prof float_1
      "profiles/a.py.flame" false (repeat tick_f 3) [tick_f] =
      Some [FileWrite "profiles/a.py.flame"
              ("None 1" +:+ newline +:+
               "<module> (a.py:1);f (a.py:3) 3" +:+ newline);
            Stdout "profile output saved to profiles/a.py.flame";
            Stdout "profile output saved to profiles/a.py.flame";
            Stdout "overhead was ? per sample (?%)"].
Proof.
  split; [reflexivity|]. split; [|reflexivity].
  apply (main_reports_by_samples_taken FlamegraphFormatter_format (λ _, "?")
    float_0_1 prof float_1 "profiles/a.py.flame" false (repeat tick_f 3)
    [tick_f] collector_after_3_ticks []).
  reflexivity.
Defined.

(** ** Aggregation *)

Lemma Zsum_Permutation (l l' : list Z) : l ≡ₚ l' → Zsum l = Zsum l'.
Proof.
  unfold Zsum.
  induction 1 as [|x l l' _ IH|x y l|l l' l'' _ IH1 _ IH2]; cbn; lia.
Qed.

Lemma total_count_insert (m : gmap Stack Z) stack v :
  m !! stack = None → total_count (<[stack := v]> m) = v + total_count m.
Proof.
  intros Hnone. unfold total_count.
  rewrite (Zsum_Permutation _ (v :: (map_to_list m).*2)); [done|].
  by rewrite map_to_list_insert.
Qed.

Lemma total_count_count_stack (m : gmap Stack Z) stack :
  total_count (count_stack m stack) = total_count m + 1.
Proof.
  unfold count_stack. destruct (m !! stack) as [v|] eqn:Hlook; cbn.
  - rewrite <-insert_delete_eq.
    rewrite total_count_insert by apply lookup_delete_eq.
    rewrite <-(insert_delete_id m stack v) at 2 by done.
    rewrite total_count_insert by apply lookup_delete_eq. lia.
  - rewrite total_count_insert by done. lia.
Qed.

Lemma total_count_foldl store : ∀ m : gmap Stack Z,
  total_count (foldl count_stack m store) =
  total_count m + Z.of_nat (length store).
Proof.
  induction store as [|stack store IH]; intros m; cbn [foldl length].
  - lia.
  - rewrite IH, total_count_count_stack. lia.
Qed.

Lemma lookup_count_stack (m : gmap Stack Z) stack stack' :
  default 0 (count_stack m stack !! stack') =
  default 0 (m !! stack') + if decide (stack' = stack) then 1 else 0.
Proof.
  unfold count_stack. destruct (decide (stack' = stack)) as [->|Hne].
  - by rewrite lookup_insert_eq.
  - rewrite lookup_insert_ne by done. lia.
Qed.

Lemma lookup_foldl_count_stack store stack : ∀ m : gmap Stack Z,
  default 0 (foldl count_stack m store !! stack) =
  default 0 (m !! stack) + occurrences stack store.
Proof.
  unfold occurrences.
  induction store as [|stack' store IH]; intros m; cbn [foldl].
  - cbn. lia.
  - rewrite IH, lookup_count_stack, filter_cons.
    destruct (decide (stack = stack')); cbn [length]; lia.
Qed.

(** C5.  The counts of the aggregated mapping add up to the number of
    samples in the store, and the count of a stack is the number of samples
    structurally equal to it. *)
Theorem stack_counts_total store :
  total_count (stack_counts store) = Z.of_nat (length store) ∧
  ∀ stack, default 0 (stack_counts store !! stack) = occurrences stack store.
Proof.
  unfold stack_counts. split.
  - rewrite total_count_foldl. unfold total_count.
    by rewrite map_to_list_empty.
  - intros stack. rewrite lookup_foldl_count_stack. by rewrite lookup_empty.
Qed.

(** ** The table formatter *)

Lemma insert_by_length {A} (key : A → Z) x l :
  length (insert_by key x l) = S (length l).
Proof.
  induction l as [|y l IH]; cbn; [done|].
  destruct (key x <=? key y); cbn; by rewrite ?IH.
Qed.

Lemma sorted_length {A} (key : A → Z) (l : list A) :
  length (sorted key l) = length l.
Proof.
  induction l as [|x l IH]; cbn; [done|].
  by rewrite insert_by_length; f_equal.
Qed.

Lemma insert_by_Forall {A} (P : A → Prop) (key : A → Z) x l :
  P x → Forall P l → Forall P (insert_by key x l).
Proof.
  intros Hx. induction 1 as [|y l Hy Hl IH]; cbn.
  - by constructor.
  - destruct (key x <=? key y); repeat constructor; auto.
Qed.

Lemma insert_by_sorted {A} (key : A → Z) x l :
  StronglySorted (λ a b, key a <= key b) l →
  StronglySorted (λ a b, key a <= key b) (insert_by key x l).
Proof.
  induction 1 as [|y l Hs IH Hy]; cbn.
  - repeat constructor.
  - destruct (key x <=? key y) eqn:Hle.
    + apply Z.leb_le in Hle. constructor; [by constructor|].
      constructor; [done|]. eapply Forall_impl; [done|]. cbn. intros; lia.
    + apply Z.leb_gt in Hle. constructor; [done|].
      apply insert_by_Forall; [lia | done].
Qed.

Lemma sorted_StronglySorted {A} (key : A → Z) (l : list A) :
  StronglySorted (λ a b, key a <= key b) (sorted key l).
Proof.
  induction l as [|x l IH]; cbn; [constructor|]. by apply insert_by_sorted.
Qed.

Lemma StronglySorted_weaken {A} (R R' : relation A) (l : list A) :
  (∀ x y, R x y → R' x y) → StronglySorted R l → StronglySorted R' l.
Proof.
  intros HR. induction 1 as [|x l _ IH Hx]; constructor; [done|].
  eapply Forall_impl; eauto.
Qed.

Lemma slice_to_sorted {A} (R : relation A) (k : Z) (l : list A) :
  StronglySorted R l → StronglySorted R (slice_to k l).
Proof.
  intros Hl. unfold slice_to.
  destruct (0 <=? k); eapply StronglySorted_app_1_l; by rewrite take_drop.
Qed.

Lemma slice_to_length {A} (k : Z) (l : list A) :
  0 <= k → (length (slice_to k l) ≤ Z.to_nat k)%nat.
Proof.
  intros Hk. unfold slice_to. rewrite (proj2 (Z.leb_le 0 k)) by done.
  rewrite length_take. lia.
Qed.

(** What the table formatter does whatever it was asked: the list handed
    to [dict] is in descending order of count and has at most 50 entries. *)
Lemma top_stacks_fifty k collector :
  (length (top_stacks (PlopFormatter_init k) collector) ≤ 50)%nat ∧
  StronglySorted (λ a b : Stack * Z, b.2 <= a.2)
    (top_stacks (PlopFormatter_init k) collector).
Proof.
  unfold top_stacks. cbn [PlopFormatter_init max_stacks]. split.
  - etrans; [by apply slice_to_length|]. done.
  - apply slice_to_sorted.
    eapply StronglySorted_weaken; [|apply sorted_StronglySorted].
    cbn. intros; lia.
Qed.

(** C3, at the failing input.  Configured with [max_stacks = 1], the
    formatter still keeps 50: on a store of two distinct stacks its
    mapping has two entries. *)
Theorem PlopFormatter_ignores_max_stacks :
  max_stacks (PlopFormatter_init 1) = 50 ∧
  length (top_stacks (PlopFormatter_init 1) store_AB) = 2%nat ∧
  size (PlopFormatter_mapping (PlopFormatter_init 1) store_AB) = 2%nat.
Proof. by vm_compute. Qed.

(** ** The folded-stack formatter *)

Lemma string_app_assoc (s1 s2 s3 : string) :
  (s1 +:+ s2) +:+ s3 = s1 +:+ (s2 +:+ s3).
Proof.
  induction s1 as [|a s1 IH]; [done|].
  change (String a ((s1 +:+ s2) +:+ s3) = String a (s1 +:+ (s2 +:+ s3))).
  by rewrite IH.
Qed.

Lemma string_app_nil_r (s : string) : s +:+ "" = s.
Proof.
  induction s as [|a s IH]; [done|].
  change (String a (s +:+ "") = String a s). by rewrite IH.
Qed.

Lemma run_lines_app runs runs' :
  run_lines (runs ++ runs') = run_lines runs +:+ run_lines runs'.
Proof.
  induction runs as [|r runs IH]; [done|].
  cbn [app run_lines foldr]. fold (run_lines (runs ++ runs')).
  fold (run_lines runs). by rewrite IH, string_app_assoc.
Qed.

Lemma run_lines_snoc runs previous previous_count :
  run_lines (runs ++ [(previous, previous_count)]) =
  run_lines runs +:+ flame_line previous previous_count.
Proof.
  rewrite run_lines_app. cbn [run_lines foldr fst snd].
  by rewrite string_app_nil_r.
Qed.

Lemma format_run_lines_from store : ∀ runs previous previous_count,
  (let '(output, previous, previous_count) :=
     foldl flame_step (run_lines runs, previous, previous_count) store in
   output +:+ flame_line previous previous_count) =
  run_lines
    (let '(runs, previous, previous_count) :=
       foldl runs_step (runs, previous, previous_count) store in
     runs ++ [(previous, previous_count)]).
Proof.
  induction store as [|stack store IH];
    intros runs previous previous_count; cbn [foldl].
  - by rewrite run_lines_snoc.
  - unfold flame_step at 2, runs_step at 2.
    destruct (decide (Some (format_flame stack) = previous)); [apply IH|].
    rewrite <-run_lines_snoc. apply IH.
Qed.

(** The string the formatter builds is its runs, one line each. *)
Lemma format_run_lines collector :
  FlamegraphFormatter_format collector = run_lines (flame_runs collector).
Proof. apply (format_run_lines_from (stacks collector) []). Qed.

Lemma flame_runs_from store : ∀ runs prev n,
  (let '(runs, previous, previous_count) :=
     foldl runs_step (runs, Some prev, n) store in
   runs ++ [(previous, previous_count)]) =
  runs ++ (prod_map Some id <$> rle_from prev n (format_flame <$> store)).
Proof.
  induction store as [|stack store IH]; intros runs prev n; [done|].
  cbn [foldl fmap list_fmap rle_from]. unfold runs_step at 2.
  destruct (decide (format_flame stack = prev)) as [->|Hne].
  - rewrite decide_True by done. apply IH.
  - rewrite decide_False by congruence. rewrite IH.
    by rewrite <-app_assoc.
Qed.

(** The runs of the formatter: a first run for [None], of length one,
    then the runs of consecutive equal folded stacks. *)
Lemma flame_runs_rle collector :
  flame_runs collector =
  (None, 1) :: (prod_map Some id <$> rle (format_flame <$> stacks collector)).
Proof.
  unfold flame_runs. destruct (stacks collector) as [|stack store]; [done|].
  cbn [foldl fmap list_fmap rle]. unfold runs_step at 2.
  rewrite decide_False by done. apply (flame_runs_from store [(None, 1)]).
Qed.

Lemma rle_from_total {A} `{EqDecision A} (l : list A) : ∀ prev n,
  Zsum (rle_from prev n l).*2 = n + Z.of_nat (length l).
Proof.
  induction l as [|x l IH]; intros prev n; cbn [rle_from].
  - cbn. lia.
  - destruct (decide (x = prev)).
    + rewrite IH. cbn [length]. lia.
    + cbn [fmap list_fmap snd Zsum foldr]. fold (Zsum (rle_from x 1 l).*2).
      rewrite IH. cbn [length]. lia.
Qed.

Lemma fmap_snd_prod_map (l : list (string * Z)) :
  (prod_map Some id <$> l).*2 = l.*2.
Proof. induction l as [|[s n] l IH]; cbn; [done | by f_equal]. Qed.

Lemma Zsum_cons x l : Zsum (x :: l) = x + Zsum l.
Proof. reflexivity. Qed.

(** The counts of the lines add up to one more than the store holds. *)
Lemma flame_runs_total collector :
  Zsum (flame_runs collector).*2 = Z.of_nat (length (stacks collector)) + 1.
Proof.
  rewrite flame_runs_rle, fmap_cons, Zsum_cons, fmap_snd_prod_map.
  destruct (stacks collector) as [|stack store]; [done|].
  cbn [fmap list_fmap rle]. rewrite rle_from_total, length_fmap.
  cbn [length snd]. lia.
Qed.

(** The formatter compares folded strings, and folding is not injective:
    a name may contain the separators. *)
Lemma format_flame_collision :
  [("a", 1, "g (b:2);f")] ≠ ([("a", 1, "f"); ("b", 2, "g")] : Stack) ∧
  format_flame [("a", 1, "g (b:2);f")] =
    format_flame [("a", 1, "f"); ("b", 2, "g")].
Proof. split; [done | by vm_compute]. Qed.

(** C1, at the failing input.  For the store [A, A, A, B, A] the output
    starts with a line for [None], of count one, before the three runs:
    four lines, whose counts add up to 6. *)
Theorem FlamegraphFormatter_format_AAABA :
  FlamegraphFormatter_format store_AAABA =
    "None 1" +:+ newline +:+
    format_flame stack_A +:+ " 3" +:+ newline +:+
    format_flame stack_B +:+ " 1" +:+ newline +:+
    format_flame stack_A +:+ " 1" +:+ newline ∧
  format_flame stack_A = "<module> (a.py:1);f (a.py:3)" ∧
  format_flame stack_B = "<module> (a.py:1);g (b.py:7)" ∧
  Zsum (flame_runs store_AAABA).*2 = 6 ∧
  length (stacks store_AAABA) = 5%nat.
Proof. by vm_compute. Qed.

(** * Further properties of the collector *)

(** ** What a session leaves in the collector *)

Lemma run_workload_state workload : ∀ self,
  stopping self = false → stopped self = false → armed self = true →
  stacks (run_workload workload self) =
    stacks self ++
    concat (tick_stacks <$>
              take (Z.to_nat (samples_remaining self - 1)) workload) ∧
  sample_time (run_workload workload self) =
    foldl add_overhead (sample_time self)
      (take (Z.to_nat (samples_remaining self - 1)) workload).
Proof.
  induction workload as [|env workload IH]; intros self Hing Hed Ha.
  - rewrite take_nil. cbn. by rewrite app_nil_r.
  - change (run_workload (env :: workload) self)
      with (run_workload workload (deliver env self)).
    unfold deliver. rewrite Ha.
    destruct (terminal (decrement self)) eqn:Ht.
    + rewrite handler_terminal, run_workload_disarmed by done.
      rewrite terminal_decrement, Hing, orb_false_r in Ht.
      apply Z.leb_le in Ht.
      replace (Z.to_nat (samples_remaining self - 1)) with 0%nat by lia.
      cbn. by rewrite app_nil_r.
    + rewrite handler_sampling by done.
      rewrite terminal_decrement, Hing, orb_false_r in Ht.
      apply Z.leb_gt in Ht.
      replace (Z.to_nat (samples_remaining self - 1))
        with (S (Z.to_nat (samples_remaining self - 1 - 1))) by lia.
      edestruct (IH (mkCollector (interval self) (mode self)
        (stacks self ++ (capture ∘ thread_frame env <$> tick_current_frames env))
        (samples_remaining self - 1) (stopping self) (stopped self)
        (samples_taken self + 1)
        (add_overhead (sample_time self) env)
        (itimer self))) as (Hstacks & Htime); [done..|].
      cbn [stacks sample_time samples_remaining] in Hstacks, Htime.
      rewrite Hstacks, Htime. cbn [take fmap list_fmap concat foldl].
      by rewrite <-app_assoc.
Qed.

Lemma wait_frame ticks : ∀ self self' rest,
  stopping self = true →
  wait ticks self = Some (self', rest) →
  stacks self' = stacks self ∧
  samples_taken self' = samples_taken self ∧
  sample_time self' = sample_time self ∧
  interval self' = interval self.
Proof.
  induction ticks as [|env ticks IH]; intros self self' rest Hs; cbn.
  - destruct (stopped self); [|done]. intros; by simplify_eq.
  - destruct (stopped self); [intros; by simplify_eq|].
    destruct (armed self); [|done]. intros Hw.
    apply IH in Hw as (-> & -> & -> & ->); [|by rewrite handler_stopping].
    by rewrite handler_after_stop_request.
Qed.

Lemma take_min_length {A} (l : list A) (k : Z) :
  take (Z.to_nat (Z.min (Z.of_nat (length l)) (Z.max k 0))) l =
  take (Z.to_nat k) l.
Proof.
  destruct (decide (Z.of_nat (length l) <= Z.max k 0)) as [Hle|Hgt].
  - rewrite !take_ge by lia. done.
  - f_equal. lia.
Qed.

(** The state at the end of a session on a new collector. *)
Lemma session_final_state mode duration workload env pending mi ei N :
  float_nonneg duration = true →
  py_int (SFdiv 53 1024 duration (S754_finite false mi ei)) = inr N →
  ∃ self rest,
    session (S754_finite false mi ei) mode duration workload (env :: pending) =
      Some (self, rest) ∧
    0 <= N ∧
    samples_taken self =
      Z.min (Z.of_nat (length workload)) (Z.max (N - 1) 0) ∧
    stacks self =
      concat (tick_stacks <$> take (Z.to_nat (samples_taken self)) workload) ∧
    sample_time self =
      foldl add_overhead float_zero
        (take (Z.to_nat (samples_taken self)) workload).
Proof.
  intros Hd Hint. unfold session.
  destruct (start_positive_interval duration
    (Collector_init (S754_finite false mi ei) mode) mi ei eq_refl Hd)
    as [Hq Hstart].
  change (interval (Collector_init ?i mode)) with i in *.
  rewrite Hint in Hstart. rewrite Hstart.
  match type of Hstart with _ = Returned ?c => set (self1 := c) in * end.
  assert (armed self1 = true) as Harmed
    by (by apply (armed_positive_interval _ mi ei)).
  destruct (run_workload_taken workload self1) as (Htaken & _ & Hlive);
    [done..|].
  destruct (run_workload_state workload self1) as (Hstacks & Htime); [done..|].
  destruct (stop_returns env pending _ Hlive) as (self & rest & Hstop & _).
  exists self, rest. split; [done|].
  apply wait_frame in Hstop as (Hs & Ht & Hm & _); [|done].
  change (stacks (set_stopping true ?c)) with (stacks c) in Hs.
  change (samples_taken (set_stopping true ?c)) with (samples_taken c) in Ht.
  change (sample_time (set_stopping true ?c)) with (sample_time c) in Hm.
  rewrite Hs, Ht, Hm, Hstacks, Htime, Htaken. subst self1.
  cbn -[Z.min Z.max]. rewrite Z.add_0_l.
  split; [|by rewrite take_min_length].
  destruct (py_int_nonneg _ Hq) as [[_ ?]|(n & ? & ?)]; congruence.
Qed.

(** A quotient that does not overflow has an integer part. *)
Lemma py_int_finite_quotient duration mi ei :
  float_nonneg duration = true →
  SFdiv 53 1024 duration (S754_finite false mi ei) ≠ S754_infinity false →
  ∃ N, py_int (SFdiv 53 1024 duration (S754_finite false mi ei)) = inr N.
Proof.
  intros Hd Hfinite.
  destruct (py_int_nonneg _ (SFdiv_nonneg duration mi ei Hd))
    as [[? _]|(N & ? & _)]; [done|by exists N].
Qed.

(** X1.  When the quotient of a positive duration by a positive interval
    does not overflow, the session ends, and at its end the store holds,
    in tick order, the stacks of the first [samples_taken] ticks of the
    workload and nothing else; [sample_time] is the float sum, taken in
    that order from zero, of the handler times of those ticks. *)
Theorem session_store_in_tick_order mode workload env pending mi ei md ed :
  SFdiv 53 1024 (S754_finite false md ed) (S754_finite false mi ei)
    ≠ S754_infinity false →
  ∃ self rest,
    session (S754_finite false mi ei) mode (S754_finite false md ed)
      workload (env :: pending) = Some (self, rest) ∧
    stacks self =
      concat (tick_stacks <$> take (Z.to_nat (samples_taken self)) workload) ∧
    sample_time self =
      foldl (λ total env,
               SFadd 53 1024 total
                 (SFsub 53 1024 (tick_time_end env) (tick_time_start env)))
        (S754_zero false)
        (take (Z.to_nat (samples_taken self)) workload).
Proof.
  intros Hfinite.
  destruct (py_int_finite_quotient (S754_finite false md ed) mi ei eq_refl
    Hfinite) as [N Hint].
  destruct (session_final_state mode (S754_finite false md ed) workload env
    pending mi ei N
    eq_refl Hint) as (self & rest & ? & _ & _ & ? & ?).
  by exists self, rest.
Qed.

Lemma session_store_in_tick_order_witness :
  ∃ self rest,
    session float_0_1 prof float_1 (repeat tick_f 3) [tick_f] =
      Some (self, rest) ∧
    stacks self =
      concat (tick_stacks <$>
                take (Z.to_nat (samples_taken self)) (repeat tick_f 3)) ∧
    sample_time self =
      foldl (λ total env,
               SFadd 53 1024 total
                 (SFsub 53 1024 (tick_time_end env) (tick_time_start env)))
        (S754_zero false)
        (take (Z.to_nat (samples_taken self)) (repeat tick_f 3)).
Proof.
  apply (session_store_in_tick_order prof (repeat tick_f 3) tick_f []
    7205759403792794 (-56) 4503599627370496 (-52)).
  by vm_compute.
Defined.

Lemma concat_length_uniform (n : nat) (ticks : list tick) :
  Forall (λ env, length (tick_current_frames env) = n) ticks →
  length (concat (tick_stacks <$> ticks)) = (n * length ticks)%nat.
Proof.
  induction 1 as [|env ticks Hn _ IH]; cbn; [lia|].
  rewrite length_app, IH. unfold tick_stacks. rewrite length_fmap, Hn. lia.
Qed.

(** X2.  When the quotient of a positive duration by a positive interval
    does not overflow and every tick of the workload shows [n] threads,
    the session ends with [n] stacks in the store per sample taken. *)
Theorem session_store_length mode workload env pending n mi ei md ed :
  SFdiv 53 1024 (S754_finite false md ed) (S754_finite false mi ei)
    ≠ S754_infinity false →
  Forall (λ env, length (tick_current_frames env) = n) workload →
  ∃ self rest,
    session (S754_finite false mi ei) mode (S754_finite false md ed)
      workload (env :: pending) = Some (self, rest) ∧
    Z.of_nat (length (stacks self)) = Z.of_nat n * samples_taken self.
Proof.
  intros Hfinite Hn.
  destruct (py_int_finite_quotient (S754_finite false md ed) mi ei eq_refl
    Hfinite) as [N Hint].
  destruct (session_final_state mode (S754_finite false md ed) workload env
    pending mi ei N
    eq_refl Hint) as (self & rest & ? & HN & Htaken & Hstacks & _).
  exists self, rest. split; [done|].
  rewrite Hstacks, (concat_length_uniform n) by (by apply Forall_take).
  rewrite length_take.
  rewrite Nat.min_l, Nat2Z.inj_mul, Z2Nat.id by lia. done.
Qed.

Lemma session_store_length_witness :
  ∃ self rest,
    session float_0_1 prof float_1 (repeat tick_f 3) [tick_f] =
      Some (self, rest) ∧
    Z.of_nat (length (stacks self)) = Z.of_nat 1 * samples_taken self.
Proof.
  apply (session_store_length prof (repeat tick_f 3) tick_f [] 1
    7205759403792794 (-56) 4503599627370496 (-52));
    [by vm_compute | by repeat constructor].
Defined.

(** ** [stop] and the busy wait *)

(** X3.  With the timer off and [stopped] unset, as on a collector that
    was never started or was reset, [stop] never returns, whatever signals
    are still to come. *)
Theorem stop_never_returns_disarmed ticks self :
  armed self = false → stopped self = false → stop ticks self = None.
Proof.
  intros Ha Hed. unfold stop. destruct ticks as [|env ticks]; cbn.
  - by rewrite Hed.
  - rewrite Hed. change (armed (set_stopping true self)) with (armed self).
    by rewrite Ha.
Qed.

Lemma stop_never_returns_disarmed_witness :
  stop [tick_f; tick_f'] (Collector_init float_0_01 prof) = None.
Proof.
  apply (stop_never_returns_disarmed [tick_f; tick_f']
    (Collector_init float_0_01 prof)); reflexivity.
Defined.

(** X4.  During a running session [stop] returns at the first signal
    after the request: that signal spends one unit of the budget, takes no
    sample, turns the timer off and sets [stopped]; the signals after it
    stay pending. *)
Theorem stop_returns_at_next_signal env pending self :
  armed self = true → stopped self = false →
  stop (env :: pending) self =
    Some (mkCollector (interval self) (mode self) (stacks self)
            (samples_remaining self - 1) true true
            (samples_taken self) (sample_time self) (float_zero, float_zero),
          pending).
Proof.
  intros Ha Hed. unfold stop. cbn. rewrite Hed.
  change (armed (set_stopping true self)) with (armed self). rewrite Ha.
  rewrite handler_after_stop_request by done. by rewrite wait_stopped.
Qed.

Lemma stop_returns_at_next_signal_witness :
  stop [tick_f; tick_f'] running_collector =
    Some (mkCollector float_0_01 prof [] 2999 true true 0 float_zero
            (float_zero, float_zero),
          [tick_f']).
Proof.
  apply (stop_returns_at_next_signal tick_f [tick_f'] running_collector);
    reflexivity.
Defined.

(** ** [start] *)

(** X5.  On a collector whose interval is zero [start] raises
    [ZeroDivisionError] after it has cleared both flags: the budget and the
    timer are as before the call. *)
Theorem start_zero_interval_raises duration self :
  float_is_zero (interval self) = true →
  start duration self =
    Raised ZeroDivisionError
      (mkCollector (interval self) (mode self) (stacks self)
         (samples_remaining self) false false
         (samples_taken self) (sample_time self) (itimer self)).
Proof.
  intros Hi. unfold start. cbn. by rewrite float_div_zero.
Qed.

Lemma start_zero_interval_raises_witness :
  start float_30
    (mkCollector float_zero prof [stack_A] 7 true true 1 float_zero
       (float_zero, float_zero)) =
    Raised ZeroDivisionError
      (mkCollector float_zero prof [stack_A] 7 false false 1 float_zero
         (float_zero, float_zero)).
Proof.
  apply (start_zero_interval_raises float_30
    (mkCollector float_zero prof [stack_A] 7 true true 1 float_zero
       (float_zero, float_zero))).
  reflexivity.
Defined.

(** X6.  A session whose duration is less than two intervals, both
    positive floats, takes no sample, however long the workload runs: the
    quotient is rounded to a float below 2, the budget is at most one and
    the first tick spends it. *)
Theorem session_shorter_than_two_intervals
    mode workload env pending mi ei md ed :
  valid_binary 53 1024 (S754_finite false mi ei) = true →
  valid_binary 53 1024 (S754_finite false md ed) = true →
  float_units (S754_finite false md ed)
    < 2 * float_units (S754_finite false mi ei) →
  ∃ self rest,
    session (S754_finite false mi ei) mode (S754_finite false md ed)
      workload (env :: pending) = Some (self, rest) ∧
    samples_taken self = 0 ∧
    stacks self = [].
Proof.
  intros [Hmi Hei]%valid_binary_bounds [Hmd Hed]%valid_binary_bounds Hlt.
  destruct (SFdiv_below_two md ed mi ei Hmd Hmi Hed Hei Hlt)
    as (N & Hint & _ & HN).
  destruct (session_final_state mode (S754_finite false md ed) workload env
    pending mi ei N eq_refl Hint) as (self & rest & ? & _ & Htaken & Hstacks & _).
  exists self, rest. split; [done|].
  assert (samples_taken self = 0) as Hzero by lia.
  split; [done|]. by rewrite Hstacks, Hzero.
Qed.

Lemma session_shorter_than_two_intervals_witness :
  ∃ self rest,
    session float_0_1 prof float_0_19 (repeat tick_f 20) [tick_f] =
      Some (self, rest) ∧
    samples_taken self = 0 ∧
    stacks self = [].
Proof.
  apply (session_shorter_than_two_intervals prof (repeat tick_f 20) tick_f []
    7205759403792794 (-56) 6845471433603154 (-55));
    [reflexivity | reflexivity | by vm_compute].
Defined.

(** X7.  [start] keeps the store and [samples_taken]: a session run on a
    collector that was not reset adds its samples to those of the sessions
    before it.  With a positive interval, a duration that is not negative
    and [N] the integer part of their double-precision quotient, it adds
    the ticks of the workload up to [N - 1] of them. *)
Theorem session_without_reset_accumulates
    duration workload env pending self mi ei N :
  interval self = S754_finite false mi ei →
  float_nonneg duration = true →
  py_int (SFdiv 53 1024 duration (interval self)) = inr N →
  ∃ self1 self' rest,
    start duration self = Returned self1 ∧
    stop (env :: pending) (run_workload workload self1) = Some (self', rest) ∧
    samples_taken self' =
      samples_taken self +
      Z.min (Z.of_nat (length workload)) (Z.max (N - 1) 0) ∧
    stacks self' =
      stacks self ++
      concat (tick_stacks <$> take (Z.to_nat (N - 1)) workload).
Proof.
  intros Hi Hd Hint.
  destruct (start_positive_interval duration self mi ei Hi Hd) as [_ Hstart].
  rewrite Hint in Hstart.
  match type of Hstart with _ = Returned ?c => set (self1 := c) in * end.
  assert (armed self1 = true) as Harmed
    by (by apply (armed_positive_interval _ mi ei)).
  destruct (run_workload_taken workload self1) as (Htaken & _ & Hlive);
    [done..|].
  destruct (run_workload_state workload self1) as (Hstacks & _); [done..|].
  destruct (stop_returns env pending _ Hlive) as (self' & rest & Hstop & _).
  exists self1, self', rest. split; [done|]. split; [done|].
  apply wait_frame in Hstop as (Hs & Ht & _); [|done].
  change (stacks (set_stopping true ?c)) with (stacks c) in Hs.
  change (samples_taken (set_stopping true ?c)) with (samples_taken c) in Ht.
  by rewrite Hs, Ht, Hstacks, Htaken.
Qed.

Lemma session_without_reset_accumulates_witness :
  ∃ self1 self' rest,
    start float_0_3 collector_after_3_ticks = Returned self1 ∧
    stop [tick_f] (run_workload (repeat tick_f' 2) self1) = Some (self', rest) ∧
    samples_taken self' =
      samples_taken collector_after_3_ticks +
      Z.min (Z.of_nat (length (repeat tick_f' 2))) (Z.max (2 - 1) 0) ∧
    stacks self' =
      stacks collector_after_3_ticks ++
      concat (tick_stacks <$> take (Z.to_nat (2 - 1)) (repeat tick_f' 2)).
Proof.
  apply (session_without_reset_accumulates float_0_3 (repeat tick_f' 2)
    tick_f [] collector_after_3_ticks 7205759403792794 (-56) 2);
    reflexivity.
Defined.

(** ** Signals, whatever the state *)

Lemma handler_samples_remaining env self :
  samples_remaining (handler env self) = samples_remaining self - 1.
Proof.
  destruct (terminal (decrement self)) eqn:Ht.
  - by rewrite handler_terminal.
  - by rewrite handler_sampling.
Qed.

(** X8.  Every run of the handler spends one unit of the budget, also
    when the session is over: after [n] signals [samples_remaining] is [n]
    lower, below zero if need be. *)
Theorem signals_spend_budget envs self :
  samples_remaining (signals envs self) =
  samples_remaining self - Z.of_nat (length envs).
Proof.
  revert self. induction envs as [|env envs IH]; intros self.
  - cbn. lia.
  - change (signals (env :: envs) self) with (signals envs (handler env self)).
    rewrite IH, handler_samples_remaining. cbn [length]. lia.
Qed.

(** X9.  [reset] leaves the timer as it is; on a collector that was reset
    the next signal takes no sample, turns the timer off and sets
    [stopped]. *)
Theorem signal_after_reset env self :
  armed (reset self) = armed self ∧
  handler env (reset self) =
    mkCollector (interval self) (mode self) [] (-1) false true 0 float_zero
      (float_zero, float_zero).
Proof. split; [done|]. by rewrite handler_terminal. Qed.

(** X10.  Nothing a client does changes the interval or the mode of a
    collector, [samples_taken] never goes below zero, and the timer is
    either off or set to the collector's interval. *)
Theorem collector_configuration_fixed every clock self :
  rtc step (Collector_init every clock) self →
  interval self = every ∧
  mode self = clock ∧
  0 <= samples_taken self ∧
  (itimer self = (float_zero, float_zero) ∨ itimer self = (every, every)).
Proof.
  intros Hrtc. pattern self.
  eapply rtc_ind_r; [| |exact Hrtc]; clear self Hrtc.
  - repeat split; [done|by left].
  - intros self self' _ Hstep (Hi & Hm & Ht & Htimer).
    destruct Hstep as
      [self | duration self self' Hst | duration e self self' Hst
      | self | env self].
    + repeat split; done.
    + apply start_returned in Hst as (_ & quotient & budget & _ & _ & ->).
      repeat split; cbn; [done..|]. right. by rewrite Hi.
    + apply start_raised in Hst as ->.
      repeat split; done.
    + repeat split; done.
    + destruct (terminal (decrement self)) eqn:Hterm.
      * rewrite handler_terminal by done. repeat split; cbn; [done..|by left].
      * rewrite handler_sampling by done. repeat split; cbn; [done|done|lia|done].
Qed.

Lemma collector_configuration_fixed_witness :
  interval running_collector = float_0_01 ∧
  mode running_collector = prof ∧
  0 <= samples_taken running_collector ∧
  (itimer running_collector = (float_zero, float_zero) ∨
   itimer running_collector = (float_0_01, float_0_01)).
Proof.
  apply (collector_configuration_fixed float_0_01 prof running_collector).
  apply rtc_once. apply (step_start_returned float_30). by vm_compute.
Defined.

(** * Further properties of the formatters *)

(** ** Aggregation *)

Lemma occurrences_nonneg stack store : 0 <= occurrences stack store.
Proof. unfold occurrences. lia. Qed.

Lemma occurrences_cons stack stack' store :
  occurrences stack (stack' :: store) =
  (if decide (stack = stack') then 1 else 0) + occurrences stack store.
Proof.
  unfold occurrences. rewrite filter_cons.
  destruct (decide (stack = stack')); cbn [length]; lia.
Qed.

Lemma occurrences_elem_of stack store :
  if decide (stack ∈ store) then 1 <= occurrences stack store
  else occurrences stack store = 0.
Proof.
  induction store as [|stack' store IH].
  - rewrite decide_False by apply not_elem_of_nil. done.
  - rewrite occurrences_cons. pose proof (occurrences_nonneg stack store).
    destruct (decide (stack = stack')) as [->|Hne].
    + rewrite decide_True by (apply elem_of_cons; by left). lia.
    + destruct (decide (stack ∈ store)) as [Hin|Hnin].
      * rewrite decide_True by (apply elem_of_cons; by right). lia.
      * rewrite decide_False; [lia|]. by intros [?|?]%elem_of_cons.
Qed.

Lemma lookup_foldl_count_stack_exact store stack : ∀ m : gmap Stack Z,
  foldl count_stack m store !! stack =
  if decide (occurrences stack store = 0) then m !! stack
  else Some (default 0 (m !! stack) + occurrences stack store).
Proof.
  induction store as [|stack' store IH]; intros m; [done|].
  cbn [foldl]. rewrite IH, occurrences_cons.
  pose proof (occurrences_nonneg stack store). unfold count_stack.
  destruct (decide (stack = stack')) as [->|Hne].
  - rewrite lookup_insert_eq. cbn [default].
    rewrite (decide_False (P := 1 + _ = 0)) by lia.
    destruct (decide (occurrences stack' store = 0)) as [->|_];
      unfold id; f_equal; lia.
  - rewrite lookup_insert_ne by done. rewrite Z.add_0_l. done.
Qed.

(** X11.  A stack is a key of the aggregation exactly when it occurs in
    the store, and its count is then the number of its occurrences, at
    least one: no key has a count of zero. *)
Theorem stack_counts_lookup store stack :
  stack_counts store !! stack =
    (if decide (stack ∈ store) then Some (occurrences stack store) else None) ∧
  (if decide (stack ∈ store) then 1 <= occurrences stack store
   else occurrences stack store = 0).
Proof.
  split; [|apply occurrences_elem_of].
  unfold stack_counts. rewrite lookup_foldl_count_stack_exact, lookup_empty.
  pose proof (occurrences_elem_of stack store) as Hocc.
  destruct (decide (stack ∈ store)).
  - rewrite decide_False by lia. cbn. done.
  - by rewrite decide_True.
Qed.

(** ** The table formatter: which stacks are kept *)

Lemma insert_by_Permutation {A} (key : A → Z) x l :
  insert_by key x l ≡ₚ x :: l.
Proof.
  induction l as [|y l IH]; cbn; [done|].
  destruct (key x <=? key y); [done|]. rewrite IH. apply Permutation_swap.
Qed.

Lemma sorted_Permutation {A} (key : A → Z) (l : list A) : sorted key l ≡ₚ l.
Proof.
  induction l as [|x l IH]; cbn; [done|].
  by rewrite insert_by_Permutation, IH.
Qed.

Lemma slice_to_take_drop {A} (k : Z) (l : list A) :
  ∃ n, slice_to k l = take n l ∧ l = slice_to k l ++ drop n l.
Proof.
  unfold slice_to. destruct (0 <=? k); eexists; by rewrite take_drop.
Qed.

(** The sorted items of the aggregation: the kept ones, then the dropped
    ones, each key once. *)
Lemma top_stacks_split self collector :
  ∃ dropped,
    top_stacks self collector ++ dropped ≡ₚ
      map_to_list (stack_counts (stacks collector)) ∧
    NoDup (top_stacks self collector ++ dropped).*1 ∧
    StronglySorted (λ a b : Stack * Z, b.2 <= a.2)
      (top_stacks self collector ++ dropped).
Proof.
  unfold top_stacks.
  set (l := sorted _ _).
  destruct (slice_to_take_drop (max_stacks self) l) as (n & _ & Hl).
  exists (drop n l). rewrite <-Hl. subst l. split; [apply sorted_Permutation|].
  split.
  - rewrite sorted_Permutation. apply NoDup_fst_map_to_list.
  - eapply StronglySorted_weaken; [|apply sorted_StronglySorted].
    cbn. intros; lia.
Qed.

Lemma top_stacks_NoDup self collector :
  NoDup (top_stacks self collector).*1.
Proof.
  destruct (top_stacks_split self collector) as (dropped & _ & Hnodup & _).
  rewrite fmap_app in Hnodup. by apply NoDup_app in Hnodup as (? & _).
Qed.

(** X12.  When the store has no more distinct stacks than [max_stacks],
    the mapping of the table formatter is the whole aggregation. *)
Theorem PlopFormatter_mapping_whole self collector :
  Z.of_nat (size (stack_counts (stacks collector))) <= max_stacks self →
  PlopFormatter_mapping self collector = stack_counts (stacks collector).
Proof.
  intros Hsize. unfold PlopFormatter_mapping, top_stacks, slice_to.
  rewrite (proj2 (Z.leb_le 0 _)) by lia.
  rewrite take_ge by (rewrite sorted_length, length_map_to_list; lia).
  rewrite (list_to_map_proper _ (map_to_list (stack_counts (stacks collector)))).
  - apply list_to_map_to_list.
  - rewrite sorted_Permutation. apply NoDup_fst_map_to_list.
  - apply sorted_Permutation.
Qed.

Lemma PlopFormatter_mapping_whole_witness :
  PlopFormatter_mapping (PlopFormatter_init 1) store_AAABA =
  stack_counts (stacks store_AAABA).
Proof.
  apply (PlopFormatter_mapping_whole (PlopFormatter_init 1) store_AAABA).
  by vm_compute.
Defined.

(** X13.  For a [max_stacks] that is not negative the mapping of the table
    formatter has [max_stacks] entries, or as many as the store has
    distinct stacks when those are fewer. *)
Theorem PlopFormatter_mapping_size self collector :
  0 <= max_stacks self →
  size (PlopFormatter_mapping self collector) =
  (Z.to_nat (max_stacks self) `min`
     size (stack_counts (stacks collector)))%nat.
Proof.
  intros Hk. unfold PlopFormatter_mapping.
  rewrite map_size_list_to_map by apply top_stacks_NoDup.
  unfold top_stacks, slice_to. rewrite (proj2 (Z.leb_le 0 _)) by done.
  by rewrite length_take, sorted_length, length_map_to_list.
Qed.

Lemma PlopFormatter_mapping_size_witness :
  size (PlopFormatter_mapping (PlopFormatter_init 1) store_AAABA) =
  (Z.to_nat 50 `min` size (stack_counts (stacks store_AAABA)))%nat.
Proof.
  apply (PlopFormatter_mapping_size (PlopFormatter_init 1) store_AAABA).
  by vm_compute.
Defined.

(** X14.  Every stack the table formatter keeps has the count the
    aggregation gave it, and no stack it drops has a higher count than one
    it keeps. *)
Theorem PlopFormatter_mapping_top self collector stack n stack' n' :
  PlopFormatter_mapping self collector !! stack = Some n →
  stack_counts (stacks collector) !! stack' = Some n' →
  PlopFormatter_mapping self collector !! stack' = None →
  stack_counts (stacks collector) !! stack = Some n ∧ n' <= n.
Proof.
  unfold PlopFormatter_mapping. intros Hkept Hall Hdropped.
  destruct (top_stacks_split self collector)
    as (dropped & Hperm & Hnodup & Hsorted).
  pose proof (top_stacks_NoDup self collector) as Hnodup'.
  apply elem_of_list_to_map in Hkept; [|done].
  apply not_elem_of_list_to_map in Hdropped.
  apply elem_of_map_to_list in Hall. rewrite <-Hperm in Hall.
  apply elem_of_app in Hall as [Hin|Hin].
  { destruct Hdropped. by apply (list_elem_of_fmap_2 fst _ (stack', n')). }
  split.
  - apply elem_of_map_to_list. rewrite <-Hperm. apply elem_of_app. by left.
  - apply (StronglySorted_app_1_elem_of _ _ _ _ _ Hsorted Hkept Hin).
Qed.

Lemma PlopFormatter_mapping_top_witness :
  stack_counts (stacks store_AAABA) !! stack_A = Some 4 ∧ 1 <= 4.
Proof.
  apply (PlopFormatter_mapping_top (mkPlopFormatter 1) store_AAABA
    stack_A 4 stack_B 1); by vm_compute.
Defined.

(** ** The folded-stack formatter: reading the lines back *)

Lemma expand_runs_cons r runs :
  expand_runs (r :: runs) = replicate (Z.to_nat r.2) r.1 ++ expand_runs runs.
Proof. reflexivity. Qed.

Lemma expand_rle_from (l : list string) : ∀ prev n,
  0 <= n →
  expand_runs (prod_map Some id <$> rle_from prev n l) =
  replicate (Z.to_nat n) (Some prev) ++ (Some <$> l).
Proof.
  induction l as [|x l IH]; intros prev n Hn; cbn [rle_from].
  - cbn. by rewrite app_nil_r.
  - destruct (decide (x = prev)) as [->|Hne].
    + rewrite IH by lia. rewrite Z2Nat.inj_add by lia.
      rewrite replicate_add, <-app_assoc. done.
    + rewrite fmap_cons, expand_runs_cons, IH by lia. done.
Qed.

(** X15.  The output of the folded-stack formatter is one line per run of
    its loop, and writing every run out as often as its count says gives
    back the folded stacks of the store, in order, after a leading [None]:
    no sample is lost, merged with a different one or reordered. *)
Theorem FlamegraphFormatter_runs_expand collector :
  FlamegraphFormatter_format collector = run_lines (flame_runs collector) ∧
  expand_runs (flame_runs collector) =
    None :: (Some ∘ format_flame <$> stacks collector).
Proof.
  split; [apply format_run_lines|].
  rewrite flame_runs_rle, expand_runs_cons. cbn [fst snd replicate app].
  change (Z.to_nat 1) with 1%nat. cbn [replicate app]. f_equal.
  rewrite list_fmap_compose. unfold rle.
  destruct (format_flame <$> stacks collector) as [|x l]; [done|].
  by rewrite expand_rle_from.
Qed.

Lemma rle_from_head {A} `{EqDecision A} (l : list A) : ∀ prev n,
  ∃ k rest, rle_from prev n l = (prev, k) :: rest.
Proof.
  induction l as [|x l IH]; intros prev n; cbn [rle_from]; [by eauto|].
  destruct (decide (x = prev)); [apply IH | by eauto].
Qed.

Lemma rle_from_adjacent {A} `{EqDecision A} (l : list A) : ∀ prev n,
  adjacent_distinct (rle_from prev n l).*1.
Proof.
  induction l as [|x l IH]; intros prev n; cbn [rle_from]; [done|].
  destruct (decide (x = prev)) as [|Hne]; [apply IH|].
  specialize (IH x 1).
  destruct (rle_from_head l x 1) as (k & rest & Heq). rewrite Heq in *.
  cbn. split; [congruence | done].
Qed.

Lemma rle_from_counts {A} `{EqDecision A} (l : list A) : ∀ prev n,
  1 <= n → Forall (λ r, 1 <= r.2) (rle_from prev n l).
Proof.
  induction l as [|x l IH]; intros prev n Hn; cbn [rle_from].
  - by repeat constructor.
  - destruct (decide (x = prev)); [apply IH; lia|].
    constructor; [done | by apply IH].
Qed.

Lemma adjacent_distinct_Some {A} (l : list A) :
  adjacent_distinct l → adjacent_distinct (Some <$> l).
Proof.
  induction l as [|x [|y l] IH]; [done..|].
  intros [Hne Hl]. split; [congruence | by apply IH].
Qed.

Lemma fmap_fst_prod_map (l : list (string * Z)) :
  (prod_map Some id <$> l).*1 = Some <$> l.*1.
Proof. induction l as [|[s n] l IH]; cbn; [done | by f_equal]. Qed.

(** X16.  No two consecutive lines of the folded output carry the same
    folded stack, and every line has a count of at least one. *)
Theorem FlamegraphFormatter_runs_maximal collector :
  adjacent_distinct (flame_runs collector).*1 ∧
  Forall (λ r, 1 <= r.2) (flame_runs collector).
Proof.
  rewrite flame_runs_rle. unfold rle.
  destruct (format_flame <$> stacks collector) as [|x l].
  { split; [done | by repeat constructor]. }
  split.
  - rewrite fmap_cons, fmap_fst_prod_map.
    pose proof (adjacent_distinct_Some _ (rle_from_adjacent l x 1)) as Hadj.
    destruct (rle_from_head l x 1) as (k & rest & Heq). rewrite Heq in *.
    split; [done | exact Hadj].
  - constructor; [done|]. apply Forall_fmap.
    eapply Forall_impl; [by apply rle_from_counts|]. by intros [s n].
Qed.

Lemma string_concat_cons sep x y l :
  String.concat sep (x :: y :: l) = x +:+ sep +:+ String.concat sep (y :: l).
Proof. reflexivity. Qed.

(** X17.  A stack is folded outermost frame first: the frame captured
    last, the bottom of the call chain, opens the line, followed by a
    semicolon and the rest of the stack when there is one. *)
Theorem format_flame_outermost_first stack outer :
  format_flame (stack ++ [outer]) =
  match stack with
  | [] => format_frame outer
  | _ :: _ => format_frame outer +:+ ";" +:+ format_flame stack
  end.
Proof.
  unfold format_flame. rewrite reverse_app, reverse_singleton. cbn [app].
  destruct stack as [|inner stack]; [done|].
  rewrite fmap_cons.
  destruct (format_frame <$> reverse (inner :: stack)) as [|x l] eqn:Heq.
  - apply fmap_nil_inv in Heq.
    apply (f_equal length) in Heq. rewrite length_reverse in Heq. done.
  - apply string_concat_cons.
Qed.

(** ** [wait] on its own *)

(** X18.  On a running session with no stop requested, [wait] returns when
    the budget is spent: it lets [samples_remaining] signals through (one
    when the budget is below one), all but the last of which take a sample,
    and comes back with the timer off. *)
Theorem wait_spends_budget ticks : ∀ self,
  stopping self = false → stopped self = false → armed self = true →
  Z.max (samples_remaining self) 1 <= Z.of_nat (length ticks) →
  ∃ self',
    wait ticks self =
      Some (self', drop (Z.to_nat (Z.max (samples_remaining self) 1)) ticks) ∧
    samples_taken self' =
      samples_taken self + Z.max (samples_remaining self - 1) 0 ∧
    stopped self' = true ∧
    armed self' = false.
Proof.
  induction ticks as [|env ticks IH]; intros self Hing Hed Ha Hlen.
  { cbn in Hlen. lia. }
  cbn [wait]. rewrite Hed, Ha.
  destruct (terminal (decrement self)) eqn:Ht.
  - rewrite handler_terminal by done.
    rewrite terminal_decrement, Hing, orb_false_r in Ht.
    apply Z.leb_le in Ht. rewrite wait_stopped by done.
    replace (Z.to_nat (Z.max (samples_remaining self) 1)) with 1%nat by lia.
    eexists. split; [reflexivity|]. cbn. repeat split; lia.
  - rewrite handler_sampling by done.
    rewrite terminal_decrement, Hing, orb_false_r in Ht.
    apply Z.leb_gt in Ht. cbn [length] in Hlen.
    edestruct (IH (mkCollector (interval self) (mode self)
      (stacks self ++ (capture ∘ thread_frame env <$> tick_current_frames env))
      (samples_remaining self - 1) (stopping self) (stopped self)
      (samples_taken self + 1)
      (add_overhead (sample_time self) env)
      (itimer self))) as (self' & Hwait & Htaken & Hstopped & Harmed);
      [done.. | cbn; lia |].
    cbn [samples_remaining samples_taken] in Hwait, Htaken.
    exists self'. rewrite Hwait.
    replace (Z.to_nat (Z.max (samples_remaining self) 1))
      with (S (Z.to_nat (Z.max (samples_remaining self - 1) 1))) by lia.
    split; [done|]. split; [lia | done].
Qed.

Lemma wait_spends_budget_witness :
  ∃ self',
    wait (repeat tick_f 3001) running_collector =
      Some (self', drop (Z.to_nat (Z.max 3000 1)) (repeat tick_f 3001)) ∧
    samples_taken self' = 0 + Z.max (3000 - 1) 0 ∧
    stopped self' = true ∧
    armed self' = false.
Proof.
  apply (wait_spends_budget (repeat tick_f 3001) running_collector);
    [reflexivity.. | by vm_compute].
Defined.
